(** * Grasp pipeline of the LoCoBot grasping example

    A shallow embedding of [locobot/robot/grasp_samplers/grasp.py]
    (class [Grasper]) and the properties its specification states.

    Number model.  The depth pipeline ([_process_depth], [_get_z_mean],
    [_get_3D_camera], [compute_grasp]) only adds, multiplies, divides and
    compares: it is embedded over the rationals [Q], where it runs.  A
    division by zero, which NumPy answers with [inf] or [nan] instead of
    an exception, is kept visible as the value [NonFin].  The motion part
    ([get_grasp_angle], [_find_pose_error], [grasp]) needs [pi] and the
    arc tangent and is embedded over the real numbers [R].  Rounding of
    binary floating point is outside both models.

    Effects.  The robot, the gripper, the camera, the clock, the marker
    subscription and the transform listener are collaborators of the
    class, not part of it: they are records of answer functions.  A
    command sent to the robot is recorded in a chronological trace, and
    every answer may depend on the trace so far. *)

From Stdlib Require Import String ZArith QArith Bool Psatz Reals List.
Import ListNotations.

(** ** Python and NumPy primitives *)

(** Exceptions the embedded code can raise. *)
Inductive exn : Type :=
| RuntimeError
| LinAlgError
| IndexError
| TfError.

Inductive result (A : Type) : Type :=
| Ok (a : A)
| Raise (e : exn).
Arguments Ok {A} a.
Arguments Raise {A} e.

(** [range(n)] *)
Definition py_range (n : Z) : list Z :=
  map Z.of_nat (seq 0 (Z.to_nat n)).

(** [int(x)] on a number: truncation toward zero. *)
Definition py_int (x : Q) : Z :=
  Z.quot (Qnum x) (Zpos (Qden x)).

(** Resolution of one index of a NumPy array along an axis of length [n]:
    a non-negative index below [n] is itself, a negative index not below
    [-n] counts from the end, anything else is an [IndexError]. *)
Definition np_axis_index (n : nat) (i : Z) : option nat :=
  if (0 <=? i)%Z && (i <? Z.of_nat n)%Z then Some (Z.to_nat i)
  else if (- Z.of_nat n <=? i)%Z && (i <? 0)%Z then Some (Z.to_nat (Z.of_nat n + i))
  else None.

(** A number as NumPy hands it back: finite, or the outcome of a division
    by zero ([inf], [nan]).  An overflow with a non-zero divisor belongs to
    binary floating point and is outside the model. *)
Inductive xnum : Type :=
| Fin (q : Q)
| NonFin.

Definition xdiv (a b : Q) : xnum :=
  if Qeq_bool b 0 then NonFin else Fin (a / b).

Definition is_finite (x : xnum) : Prop :=
  match x with Fin _ => True | NonFin => False end.

Definition Qgtb (x y : Q) : bool := negb (Qle_bool x y).

(** ** Module constants *)

Definition BB_SIZE : Z := 5.
Definition MAX_DEPTH : Q := 3.
Definition MIN_DEPTH : Q := 1 # 10.
Definition BASE_FRAME : string := "base_link".
Definition KINECT_FRAME : string := "camera_color_optical_frame".

(** ** Depth maps *)

(** A depth map is a two-dimensional array of distances in metres, stored
    by rows. *)
Definition depth_map : Type := list (list Q).

(** [depth[r, c]]; [None] stands for the [IndexError]. *)
Definition depth_at (depth : depth_map) (r c : Z) : option Q :=
  match np_axis_index (length depth) r with
  | None => None
  | Some r' =>
      match nth_error depth r' with
      | None => None
      | Some row =>
          match np_axis_index (length row) c with
          | None => None
          | Some c' => nth_error row c'
          end
      end
  end.

(** [cur_depth[cur_depth > MAX_DEPTH] = 0.0] on one sample *)
Definition clip_depth (d : Q) : Q :=
  if Qgtb d MAX_DEPTH then 0 else d.

Definition _process_depth (cur_depth : depth_map) : depth_map :=
  map (map clip_depth) cur_depth.

(** The index pairs [int(new_pt[0]), int(new_pt[1])] the two nested loops
    of [_get_z_mean] build, in the order of the loops. *)
Definition sampled_indices (pt : Q * Q) (bb : Z) : list (Z * Z) :=
  map (fun ij : Z * Z =>
         (py_int (fst pt - inject_Z bb + inject_Z (fst ij)),
          py_int (snd pt - inject_Z bb + inject_Z (snd ij))))
      (list_prod (py_range (bb * 2)) (py_range (bb * 2))).

(** Body of the inner loop: the accumulator is [(sum_z, nps)]. *)
Definition z_step (depth : depth_map) (acc : Q * nat) (rc : Z * Z) : Q * nat :=
  match depth_at depth (fst rc) (snd rc) with
  | Some new_z =>
      if Qgtb new_z MIN_DEPTH then (fst acc + new_z, S (snd acc)) else acc
  | None => acc
  end.

Definition z_acc (depth : depth_map) (pt : Q * Q) (bb : Z) : Q * nat :=
  fold_left (z_step depth) (sampled_indices pt bb) (0, O).

(** [_get_z_mean]: the sum and the quotient are exact here, rounded in the
    code. *)
Definition _get_z_mean (depth : depth_map) (pt : Q * Q) (bb : Z) : Q :=
  let '(sum_z, nps) := z_acc depth pt bb in
  if Nat.eqb nps 0 then 0 else sum_z / inject_Z (Z.of_nat nps).

(** ** Back-projection *)

Definition vec3 : Type := (Q * Q * Q)%type.
Definition mat33 : Type := (vec3 * vec3 * vec3)%type.
(** The 3x4 projection matrix [camera_P], by rows. *)
Definition mat34 : Type := ((Q * Q * Q * Q) * (Q * Q * Q * Q) * (Q * Q * Q * Q))%type.

Definition det3 (m : mat33) : Q :=
  let '((a, b, c), (d, e, f), (g, h, i)) := m in
  a * (e * i - f * h) - b * (d * i - f * g) + c * (d * h - e * g).

(** [np.linalg.inv]: the inverse, or [LinAlgError] on a singular matrix.  In
    exact arithmetic singular means determinant zero; the library decides on
    the pivots of a factorisation in binary floating point. *)
Definition linalg_inv (m : mat33) : result mat33 :=
  let '((a, b, c), (d, e, f), (g, h, i)) := m in
  let dt := det3 m in
  if Qeq_bool dt 0 then Raise LinAlgError
  else Ok (((e * i - f * h) / dt, (c * h - b * i) / dt, (b * f - c * e) / dt),
           ((f * g - d * i) / dt, (a * i - c * g) / dt, (c * d - a * f) / dt),
           ((d * h - e * g) / dt, (b * g - a * h) / dt, (a * e - b * d) / dt)).

Definition dot3 (m : mat33) (v : vec3) : vec3 :=
  let '((a, b, c), (d, e, f), (g, h, i)) := m in
  let '(x, y, z) := v in
  (a * x + b * y + c * z, d * x + e * y + f * z, g * x + h * y + i * z).

(** [P_n[:, :2] = P[:, :2]; P_n[:, 2] = P[:, 3] + P[:, 2] * z] *)
Definition back_projection_matrix (P : mat34) (z : Q) : mat33 :=
  let '((p00, p01, p02, p03), (p10, p11, p12, p13), (p20, p21, p22, p23)) := P in
  ((p00, p01, p03 + p02 * z),
   (p10, p11, p13 + p12 * z),
   (p20, p21, p23 + p22 * z)).

Definition xpoint : Type := (xnum * xnum * xnum)%type.

(** [_get_3D_camera]: [depth] is the answer of [camera.get_depth()] and [P]
    the copy of [camera.camera_P].  [pt] is a pair, so [assert len(pt) == 2]
    holds.  A zero [norm_z] makes [z / norm_z] infinite and every later
    number with it; no caller in the class passes [norm_z]. *)
Definition _get_3D_camera (depth : depth_map) (P : mat34) (pt : Q * Q)
    (norm_z : option Q) : result xpoint :=
  let cur_depth := _process_depth depth in
  let z := _get_z_mean cur_depth (fst pt, snd pt) BB_SIZE in
  if Qeq_bool z 0 then Raise RuntimeError
  else
    match (match norm_z with
           | None => Some z
           | Some n => if Qeq_bool n 0 then None else Some (z / n)
           end) with
    | None => Ok (NonFin, NonFin, NonFin)
    | Some z =>
        let u := snd pt in
        let v := fst pt in
        let P_n := back_projection_matrix P z in
        match linalg_inv P_n with
        | Raise e => Raise e
        | Ok P_n_inv =>
            let '(t0, t1, t2) := dot3 P_n_inv (u, v, 1) in
            Ok (xdiv t0 t2, xdiv t1 t2, Fin z)
        end
    end.

(** ** Transform listener *)

(** The [tf] listener, over whatever representation of points its client
    uses.  [None] stands for a [tf] exception. *)
Record TransformListener (point : Type) : Type := {
  transformPoint : string -> string -> point -> option point;
  lookupTransform : string -> string -> option point
}.
Arguments transformPoint {point}.
Arguments lookupTransform {point}.

(** [_convert_frames]: the point is handed to the listener; the transform is
    looked up as well, for the log line. *)
Definition _convert_frames {point : Type} (tl : TransformListener point)
    (pt : point) : result point :=
  match transformPoint tl BASE_FRAME KINECT_FRAME pt with
  | None => Raise TfError
  | Some base_pt =>
      match lookupTransform tl BASE_FRAME KINECT_FRAME with
      | None => Raise TfError
      | Some _ => Ok base_pt
      end
  end.

Definition get_3D (tl : TransformListener xpoint) (depth : depth_map)
    (P : mat34) (pt : Q * Q) (z_norm : option Q) : result xpoint :=
  match _get_3D_camera depth P pt z_norm with
  | Raise e => Raise e
  | Ok temp_p => _convert_frames tl temp_p
  end.

(** ** Grasp descriptor *)

Definition default_dims : (Z * Z) * (Z * Z) := ((240, 480), (100, 540))%Z.

(** [compute_grasp]: [predicted] is [list(self.grasp_model.predict(img))].
    The slice assignment [selected_grasp[:2] = ...[:2]] replaces the first
    two entries by the first two coordinates of the base-frame point. *)
Definition compute_grasp (tl : TransformListener xpoint) (depth : depth_map)
    (P : mat34) (predicted : list Q) (dims : (Z * Z) * (Z * Z))
    : result (list xnum) :=
  match predicted with
  | g0 :: g1 :: rest =>
      let g0 := g0 + inject_Z (fst (fst dims)) in
      let g1 := g1 + inject_Z (fst (snd dims)) in
      match get_3D tl depth P (g0, g1) None with
      | Raise e => Raise e
      | Ok (x, y, _) =>
          let selected_grasp := x :: y :: map Fin rest in
          match nth_error selected_grasp 2 with
          | None => Raise IndexError
          | Some _ => Ok selected_grasp
          end
      end
  | _ => Raise IndexError
  end.

(** ** Robot, commands and trace *)

Definition point3 : Type := (R * R * R)%type.

(** The fields of the marker message the class reads. *)
Record Marker : Type := {
  stamp_secs : Z;
  pose_position : point3
}.

(** A command sent to a collaborator, with the answer where the class looks
    at one.  [plan] is [None] where the call leaves the driver's default. *)
Inductive event : Type :=
| ArmGoHome
| ArmSetJointPositions (positions : list R) (plan : option bool) (success : bool)
| ArmSetEEPosePitchRoll (position : list R) (pitch roll : R) (success : bool)
| GripperOpen
| GripperClose
| CameraSetPan (pan : R)
| CameraSetTilt (tilt : R)
| CameraSetPanTilt (pan tilt : R)
| Sleep (secs : R).

Definition history : Type := list event.

(** The collaborators.  Every answer is a function of the commands issued so
    far, so that a driver may fail twice and then succeed, the marker may
    appear while the class sleeps, and the transform tree may move with
    the arm. *)
Record Robot : Type := {
  arm_set_joint_positions : history -> list R -> option bool -> bool;
  arm_set_ee_pose_pitch_roll : history -> list R -> R -> R -> bool;
  arm_get_joint_angles : history -> list R;
  marker_data : history -> option Marker;
  time_now_secs : history -> Z;
  transform_listener : history -> TransformListener point3
}.

(** Computations that issue commands and may raise. *)
Definition M (A : Type) : Type := history -> result A * history.

Definition ret {A : Type} (a : A) : M A := fun h => (Ok a, h).

Definition raise {A : Type} (e : exn) : M A := fun h => (Raise e, h).

Definition bind {A B : Type} (m : M A) (k : A -> M B) : M B :=
  fun h =>
    match m h with
    | (Ok a, h') => k a h'
    | (Raise e, h') => (Raise e, h')
    end.

Definition lift {A : Type} (r : result A) : M A := fun h => (r, h).

Definition emit (e : event) : M unit := fun h => (Ok tt, h ++ [e]).

Definition ask : M history := fun h => (Ok h, h).

Declare Scope grasper_scope.
Delimit Scope grasper_scope with grasper.
Notation "x <- m ;; k" := (bind m (fun x => k))
  (at level 61, m at next level, right associativity) : grasper_scope.
Notation "m ;; k" := (bind m (fun _ => k))
  (at level 61, right associativity) : grasper_scope.
Local Open Scope grasper_scope.
Local Open Scope R_scope.

(** Commands as the class calls them. *)
Definition go_home : M unit := emit ArmGoHome.

Definition set_joint_positions (rb : Robot) (positions : list R)
    (plan : option bool) : M bool :=
  fun h =>
    let success := arm_set_joint_positions rb h positions plan in
    (Ok success, h ++ [ArmSetJointPositions positions plan success]).

Definition set_ee_pose_pitch_roll (rb : Robot) (position : list R)
    (pitch roll : R) : M bool :=
  fun h =>
    let success := arm_set_ee_pose_pitch_roll rb h position pitch roll in
    (Ok success, h ++ [ArmSetEEPosePitchRoll position pitch roll success]).

Definition sleep (secs : R) : M unit := emit (Sleep secs).

(** ** Lists as Python uses them *)

Definition getitem {A : Type} (l : list A) (i : nat) : result A :=
  match nth_error l i with
  | Some a => Ok a
  | None => Raise IndexError
  end.

Fixpoint setitem {A : Type} (l : list A) (i : nat) (v : A) : result (list A) :=
  match l, i with
  | [], _ => Raise IndexError
  | _ :: l', O => Ok (v :: l')
  | a :: l', S i' =>
      match setitem l' i' v with
      | Ok l'' => Ok (a :: l'')
      | Raise e => Raise e
      end
  end.

(** [l[a:b]] for [0 <= a <= b] *)
Definition slice {A : Type} (l : list A) (a b : nat) : list A :=
  firstn (b - a) (skipn a l).

(** [sum(l)] *)
Definition py_sum (l : list R) : R := fold_left Rplus l 0.

(** ** NumPy on real numbers *)

Definition np_sign (x : R) : R :=
  if Rlt_dec x 0 then -1 else if Rlt_dec 0 x then 1 else 0.

Definition np_deg2rad (x : R) : R := x * PI / 180.

(** [np.arctan2(y, x)], the angle of the point [(x, y)] in [[-pi, pi]]. *)
Definition np_arctan2 (y x : R) : R :=
  if Rlt_dec 0 x then atan (y / x)
  else if Rlt_dec x 0 then
    if Rle_dec 0 y then atan (y / x) + PI else atan (y / x) - PI
  else if Rlt_dec 0 y then PI / 2
  else if Rlt_dec y 0 then - (PI / 2)
  else 0.

(** ** The attributes set by the constructor *)

Definition DEFAULT_PITCH : R := 1.57.
Definition pregrasp_height : R := 0.25.
Definition pregrasp_pitch : R := -0.2.
Definition grasp_height : R := 0.13.
Definition retract_position : list R := [-1.5; 0.5; 0.3; -0.7; 0.0].
Definition reset_pan : R := 0.0.
Definition reset_tilt : R := 0.8.
Definition n_tries : nat := 5.
Definition _sleep_time : R := 3.
Definition x_offset : R := 0.0.
Definition y_offset : R := 0.03.

(** ** reset *)

(** The [for _ in range(self.n_tries)] loop of [reset], [n] rounds left. *)
Fixpoint reset_loop (rb : Robot) (n : nat) (success : bool) : M bool :=
  match n with
  | O => ret success
  | S n' =>
      go_home ;;
      success <- set_joint_positions rb retract_position (Some false) ;;
      if success then ret success else reset_loop rb n' success
  end.

Definition reset (rb : Robot) : M bool :=
  success <- reset_loop rb n_tries false ;;
  emit GripperOpen ;;
  emit (CameraSetPan reset_pan) ;;
  emit (CameraSetTilt reset_tilt) ;;
  ret success.

(** ** set_pose *)

(** The retry loop of [set_pose], [n] rounds left.  The driver answers a
    boolean, so [success == 1] is [success]. *)
Fixpoint set_pose_loop (rb : Robot) (n : nat) (position : list R)
    (pitch roll : R) (success : bool) : M bool :=
  match n with
  | O => ret success
  | S n' =>
      success <- set_ee_pose_pitch_roll rb position pitch roll ;;
      if success then ret success
      else set_pose_loop rb n' position pitch roll success
  end.

Definition set_pose (rb : Robot) (position : list R) (pitch roll : R) : M bool :=
  set_pose_loop rb n_tries position pitch roll false.

(** ** get_grasp_angle *)

(** The wrap applied to [delta_angle]. *)
Definition wrap_angle (delta_angle : R) : R :=
  if Rlt_dec (PI / 2) delta_angle then delta_angle - PI
  else if Rlt_dec delta_angle (- PI / 2) then 2 * PI + delta_angle
  else delta_angle.

Definition get_grasp_angle (grasp_pose : list R) : result R :=
  match getitem grasp_pose 1, getitem grasp_pose 0, getitem grasp_pose 2 with
  | Ok y, Ok x, Ok angle =>
      let cur_angle := np_arctan2 y x in
      let delta_angle := angle + cur_angle in
      Ok (wrap_angle delta_angle)
  | _, _, _ => Raise IndexError
  end.

(** ** _find_pose_error *)

(** The test of the polling loop: no marker message yet, or one whose stamp
    is more than one second behind the clock (whole seconds). *)
Definition marker_not_visible (m : option Marker) (now_secs : Z) : bool :=
  match m with
  | None => true
  | Some d => (1 <? now_secs - stamp_secs d)%Z
  end.

(** [joint_angles[0] -= np.deg2rad(2) * np.sign(joint_angles[0])] *)
Definition nudge (j0 : R) : R := j0 - np_deg2rad 2 * np_sign j0.

Definition nudge_base (joint_angles : list R) : result (list R) :=
  match getitem joint_angles 0 with
  | Ok j0 => setitem joint_angles 0 (nudge j0)
  | Raise e => Raise e
  end.

(** The [for _ in range(5)] loop that waits for the marker, [n] rounds left;
    it answers the joint angles it commanded last. *)
Fixpoint poll_marker (rb : Robot) (n : nat) (joint_angles : list R)
    : M (list R) :=
  match n with
  | O => ret joint_angles
  | S n' =>
      h <- ask ;;
      if marker_not_visible (marker_data rb h) (time_now_secs rb h) then
        joint_angles <- lift (nudge_base joint_angles) ;;
        set_joint_positions rb joint_angles None ;;
        sleep _sleep_time ;;
        poll_marker rb n' joint_angles
      else ret joint_angles
  end.

Definition _find_pose_error (rb : Robot) : M (R * R) :=
  emit (CameraSetPanTilt 0.0 0.5) ;;
  sleep _sleep_time ;;
  h <- ask ;;
  let joint_angles := arm_get_joint_angles rb h in
  joint_angles <- lift (setitem joint_angles 3
                          (- py_sum (slice joint_angles 1 3) + pregrasp_pitch)) ;;
  set_joint_positions rb joint_angles None ;;
  sleep (2 * _sleep_time) ;;
  poll_marker rb 5 joint_angles ;;
  h <- ask ;;
  match marker_data rb h with
  | None => ret (0, 0)
  | Some d =>
      ar_tag_pose_from_cam <-
        lift (_convert_frames (transform_listener rb h) (pose_position d)) ;;
      match lookupTransform (transform_listener rb h) BASE_FRAME "ar_tag" with
      | None => raise TfError
      | Some ar_tag_pose_from_model =>
          let '(mx, my, _) := ar_tag_pose_from_model in
          let '(cx, cy, _) := ar_tag_pose_from_cam in
          ret (mx - cx, my - cy)
      end
  end.

(** ** grasp *)

Definition grasp (rb : Robot) (grasp_pose : list R) : M bool :=
  g0 <- lift (getitem grasp_pose 0) ;;
  g1 <- lift (getitem grasp_pose 1) ;;
  let pregrasp_position := [g0; g1; pregrasp_height] in
  grasp_angle <- lift (get_grasp_angle grasp_pose) ;;
  result <- set_pose rb pregrasp_position DEFAULT_PITCH 0 ;;
  if negb result then ret false else
  sleep _sleep_time ;;
  delta <- _find_pose_error rb ;;
  let '(delta_x, delta_y) := delta in
  grasp_pose <- lift (setitem grasp_pose 0 (g0 + (delta_x + x_offset))) ;;
  grasp_pose <- lift (setitem grasp_pose 1 (g1 + (delta_y + y_offset))) ;;
  g0 <- lift (getitem grasp_pose 0) ;;
  g1 <- lift (getitem grasp_pose 1) ;;
  let pregrasp_position := [g0; g1; pregrasp_height] in
  result <- set_pose rb pregrasp_position DEFAULT_PITCH grasp_angle ;;
  if negb result then ret false else
  sleep _sleep_time ;;
  let grasp_position := [g0; g1; grasp_height] in
  result <- set_pose rb grasp_position DEFAULT_PITCH grasp_angle ;;
  if negb result then ret false else
  sleep _sleep_time ;;
  emit GripperClose ;;
  sleep _sleep_time ;;
  result <- set_pose rb pregrasp_position DEFAULT_PITCH grasp_angle ;;
  if negb result then ret false else
  sleep _sleep_time ;;
  ret true.

(** ** The neighbourhood as the specification words it *)

(** Modelled from the specification (not from the code): "a square
    neighborhood of fixed half-width (5 px) centered on the pixel", that
    is every offset from [-5] to [5] in both directions. *)
Definition spec_neighborhood (row col : Z) : list (Z * Z) :=
  map (fun ij : Z * Z => (row - 5 + fst ij, col - 5 + snd ij)%Z)
      (list_prod (py_range 11) (py_range 11)).

(** A sample the specification calls valid: in range [(0.1, 3.0]]. *)
Definition valid_depth (d : Q) : Prop := (MIN_DEPTH < d /\ d <= MAX_DEPTH)%Q.

(** ** Scenarios *)

(** A depth map with the same distance everywhere. *)
Definition flat_depth (v : Q) (h w : nat) : depth_map := repeat (repeat v w) h.

(** A depth map with one sample [v] at [(r, c)] and zero elsewhere. *)
Definition single_sample (h w r c : nat) (v : Q) : depth_map :=
  map (fun i => map (fun j => if Nat.eqb i r && Nat.eqb j c then v else 0%Q)
                    (seq 0 w))
      (seq 0 h).

(** The projection matrix of an ideal pinhole camera. *)
Definition P_ideal : mat34 :=
  ((1, 0, 0, 0), (0, 1, 0, 0), (0, 0, 1, 0))%Q.

(** A projection matrix whose first column is the homogeneous pixel
    [(5, 5, 1)]. *)
Definition P_skewed : mat34 :=
  ((5, 0, 1, 0), (5, 1, 0, 0), (1, 0, 0, 0))%Q.

(** A listener that answers every point unchanged. *)
Definition tl_identity : TransformListener xpoint :=
  {| transformPoint := fun _ _ p => Some p;
     lookupTransform := fun _ _ => Some (Fin 0, Fin 0, Fin 0) |}.

(** A listener over real points: points are unchanged, every frame sits at
    [(1, 2, 3)]. *)
Definition tl_offset : TransformListener point3 :=
  {| transformPoint := fun _ _ p => Some p;
     lookupTransform := fun _ _ => Some (1, 2, 3) |}.

(** A robot whose arm never reaches a pose and never sees the marker. *)
Definition rb_stuck : Robot :=
  {| arm_set_joint_positions := fun _ _ _ => true;
     arm_set_ee_pose_pitch_roll := fun _ _ _ _ => false;
     arm_get_joint_angles := fun _ => [0; 0; 0; 0; 0];
     marker_data := fun _ => None;
     time_now_secs := fun _ => 10%Z;
     transform_listener := fun _ => tl_offset |}.

(** A robot that saw the marker once, ten seconds ago, at the origin of the
    camera frame, and not since. *)
Definition rb_stale : Robot :=
  {| arm_set_joint_positions := fun _ _ _ => true;
     arm_set_ee_pose_pitch_roll := fun _ _ _ _ => true;
     arm_get_joint_angles := fun _ => [0; 0; 0; 0; 0];
     marker_data := fun _ => Some {| stamp_secs := 0; pose_position := (0, 0, 0) |};
     time_now_secs := fun _ => 10%Z;
     transform_listener := fun _ => tl_offset |}.

(** A depth map with [h] rows of [w] samples each. *)
Definition has_shape (depth : depth_map) (h w : nat) : Prop :=
  length depth = h /\ Forall (fun row => length row = w) depth.

(** The neighbourhood of [pt] holds a valid sample: one of the sampled index
    pairs reads a distance in [(0.1, 3.0]] from the depth map. *)
Definition neighbourhood_valid (depth : depth_map) (pt : Q * Q) : Prop :=
  exists r c d,
    In (r, c) (sampled_indices pt BB_SIZE) /\
    depth_at depth r c = Some d /\ valid_depth d.

(** ** Trace vocabulary *)

(** One round of the loop of [reset]: go home, then the retract command with
    its answer. *)
Definition reset_round (success : bool) : list event :=
  [ArmGoHome; ArmSetJointPositions retract_position (Some false) success].

(** A pose command the arm driver answered with failure. *)
Definition pose_command_failed (e : event) : bool :=
  match e with
  | ArmSetEEPosePitchRoll _ _ _ false => true
  | _ => false
  end.

(** A monitor that reads a trace from left to right.  Its state is the length
    of the run of failed pose commands it has just read; it rejects the
    trace ([None]) as soon as an event follows [n_tries] of them in a row. *)
Fixpoint scan (c : nat) (tr : list event) : option nat :=
  match tr with
  | [] => Some c
  | e :: tr' =>
      if (n_tries <=? c)%nat then None
      else scan (if pose_command_failed e then S c else O) tr'
  end.

(** [m] only appends to the trace, the monitor started in state [c0] accepts
    what it appends, and [P] relates the outcome to the monitor's final
    state. *)
Definition tracks {A : Type} (c0 : nat) (m : M A)
    (P : result A -> nat -> Prop) : Prop :=
  forall h, exists r t c, m h = (r, h ++ t) /\ scan c0 t = Some c /\ P r c.


(** A robot whose arm obeys every command and which never receives a marker
    message. *)
Definition rb_blind : Robot :=
  {| arm_set_joint_positions := fun _ _ _ => true;
     arm_set_ee_pose_pitch_roll := fun _ _ _ _ => true;
     arm_get_joint_angles := fun _ => [0; 0; 0; 0; 0];
     marker_data := fun _ => None;
     time_now_secs := fun _ => 10%Z;
     transform_listener := fun _ => tl_offset |}.

(** A robot that sees the marker, stamped at the current second, at
    [(1/2, 0, 0)] of the camera frame. *)
Definition rb_fresh : Robot :=
  {| arm_set_joint_positions := fun _ _ _ => true;
     arm_set_ee_pose_pitch_roll := fun _ _ _ _ => true;
     arm_get_joint_angles := fun _ => [0; 0; 0; 0; 0];
     marker_data := fun _ => Some {| stamp_secs := 10; pose_position := (0.5, 0, 0) |};
     time_now_secs := fun _ => 10%Z;
     transform_listener := fun _ => tl_offset |}.

(** A robot whose arm reports three joints only. *)
Definition rb_three_joints : Robot :=
  {| arm_set_joint_positions := fun _ _ _ => true;
     arm_set_ee_pose_pitch_roll := fun _ _ _ _ => true;
     arm_get_joint_angles := fun _ => [0; 0; 0];
     marker_data := fun _ => None;
     time_now_secs := fun _ => 10%Z;
     transform_listener := fun _ => tl_offset |}.

(** What the polling loop may send: a joint command that differs from the
    angles it started with in the base joint only, or the settle sleep. *)
Definition polling_command (rest : list R) (e : event) : Prop :=
  match e with
  | ArmSetJointPositions (_ :: rest') None _ => rest' = rest
  | Sleep secs => secs = _sleep_time
  | _ => False
  end.


(** ** Vocabulary for whole runs *)

(** [m] appends at most [n] commands to the trace, all of them in [Q]. *)
Definition emits_within {A : Type} (n : nat) (Q : event -> Prop) (m : M A) : Prop :=
  forall h, exists r t, m h = (r, h ++ t) /\ Forall Q t /\ (length t <= n)%nat.

(** What the calibration step may send: camera pan and tilt, sleeps, and
    joint commands that leave [plan] to the driver. *)
Definition calibration_command (e : event) : Prop :=
  match e with
  | CameraSetPanTilt _ _ => True
  | Sleep _ => True
  | ArmSetJointPositions _ None _ => True
  | _ => False
  end.

(** What [grasp] may send for the pose [grasp_pose]: sleeps, calibration
    commands, the gripper close, and pose commands at the default pitch, at
    the pregrasp or the grasp height, with roll 0 or the grasp angle of
    [grasp_pose]. *)
Definition grasp_command (grasp_pose : list R) (e : event) : Prop :=
  match e with
  | ArmSetEEPosePitchRoll position pitch roll _ =>
      pitch = DEFAULT_PITCH /\
      (exists x y, position = [x; y; pregrasp_height] \/
                   position = [x; y; grasp_height]) /\
      (roll = 0 \/ get_grasp_angle grasp_pose = Ok roll)
  | GripperClose => True
  | e' => calibration_command e'
  end.

(** A pose command the arm driver answered with success. *)
Definition pose_command_reached (e : event) : bool :=
  match e with
  | ArmSetEEPosePitchRoll _ _ _ true => true
  | _ => false
  end.

Definition count_reached (t : list event) : nat :=
  length (filter pose_command_reached t).

(** A second monitor: its state is the number of poses reached and whether
    the gripper has been closed; it rejects a gripper close that does not
    come after exactly three reached poses, or that comes twice. *)
Definition stage_step (s : nat * bool) (e : event) : option (nat * bool) :=
  match e with
  | ArmSetEEPosePitchRoll _ _ _ true => Some (S (fst s), snd s)
  | GripperClose =>
      if Nat.eqb (fst s) 3 && negb (snd s) then Some (fst s, true) else None
  | _ => Some s
  end.

Fixpoint stage_run (s : nat * bool) (tr : list event) : option (nat * bool) :=
  match tr with
  | [] => Some s
  | e :: tr' =>
      match stage_step s e with
      | Some s' => stage_run s' tr'
      | None => None
      end
  end.

Definition stages {A : Type} (s0 : nat * bool) (m : M A)
    (P : result A -> nat * bool -> Prop) : Prop :=
  forall h, exists r t s, m h = (r, h ++ t) /\ stage_run s0 t = Some s /\ P r s.


(** ** exit and signal_handler *)

(** How a call that never returns ends: [sys.exit(code)], or an exception
    nobody catches. *)
Inductive termination : Type :=
| SystemExit (code : Z)
| Uncaught (e : exn).

(** [exit]: reset, then [sys.exit(0)]. *)
Definition exit (rb : Robot) : history -> termination * history :=
  fun h =>
    match reset rb h with
    | (Ok _, h') => (SystemExit 0, h')
    | (Raise e, h') => (Uncaught e, h')
    end.

Definition signal_handler (rb : Robot) (sig : Z) : history -> termination * history :=
  exit rb.

(** What the loop of [reset] may send. *)
Definition retract_command (e : event) : Prop :=
  match e with
  | ArmGoHome => True
  | ArmSetJointPositions positions (Some false) _ => positions = retract_position
  | _ => False
  end.

(** * The version module of polymetis *)

(** Python strings as the module uses them. *)

(** [s.split(sep)] for a separator of one character *)
Fixpoint str_split (sep : Ascii.ascii) (s : string) : list string :=
  match s with
  | EmptyString => [EmptyString]
  | String c s' =>
      if Ascii.eqb c sep then EmptyString :: str_split sep s'
      else match str_split sep s' with
           | w :: ws => String c w :: ws
           | [] => [String c EmptyString]
           end
  end.

Fixpoint str_lstrip (c : Ascii.ascii) (s : string) : string :=
  match s with
  | EmptyString => EmptyString
  | String a s' => if Ascii.eqb a c then str_lstrip c s' else s
  end.

Fixpoint str_rstrip (c : Ascii.ascii) (s : string) : string :=
  match s with
  | EmptyString => EmptyString
  | String a s' =>
      match str_rstrip c s' with
      | EmptyString => if Ascii.eqb a c then EmptyString else String a EmptyString
      | r => String a r
      end
  end.

(** [s.strip(c)] for one character [c] *)
Definition str_strip (c : Ascii.ascii) (s : string) : string :=
  str_rstrip c (str_lstrip c s).

(** [a in b] on strings *)
Fixpoint str_in (a b : string) : bool :=
  if String.prefix a b then true
  else match b with
       | EmptyString => false
       | String _ b' => str_in a b'
       end.

(** [c] occurs in [s] *)
Fixpoint has_char (c : Ascii.ascii) (s : string) : bool :=
  match s with
  | EmptyString => false
  | String a s' => Ascii.eqb a c || has_char c s'
  end.

Definition newline : Ascii.ascii := Ascii.ascii_of_nat 10.
Definition space : Ascii.ascii := Ascii.ascii_of_nat 32.
Definition dash : Ascii.ascii := Ascii.ascii_of_nat 45.

(** [l[-k]] for [k >= 1] *)
Definition getitem_from_end {A : Type} (l : list A) (k : nat) : option A :=
  if (k <=? length l)%nat then nth_error l (length l - k) else None.

(** What the module can raise. *)
Inductive version_error : Type :=
| VersionIndexError
| CannotLocate.

(** What the interpreter finds around the module: the value of
    [CONDA_PREFIX] if set, [polymetis.__file__] with its directory, the
    lines printed by [conda list | grep polymetis] and by
    [git describe --tags], and the working directory. *)
Record VersionEnv : Type := {
  conda_prefix : option string;
  polymetis_file : string;
  polymetis_dir : string;
  conda_list_lines : list string;
  git_describe_lines : list string;
  original_cwd : string
}.

(** [[s for s in line.strip("\n").split(" ") if len(s) > 0]] *)
Definition info_fields (line : string) : list string :=
  filter (fun s => negb (String.eqb s EmptyString))
         (str_split space (str_strip newline line)).

(** The loop over the lines of [conda list]; [Ok ""] when it ends without a
    match. *)
Fixpoint conda_version (lines : list string) : version_error + string :=
  match lines with
  | [] => inr EmptyString
  | line :: rest =>
      match info_fields line with
      | [] => inl VersionIndexError
      | f0 :: fields =>
          if String.eqb f0 "polymetis" then
            match fields with
            | [] => inl VersionIndexError
            | f1 :: _ => inr f1
            end
          else conda_version rest
      end
  end.

Definition default_describe : string := "v1.0-1251-g0a01a7fa7".

(** The [else] branch up to the assignment of [__version__]. *)
Definition git_version (lines : list string) : version_error + string :=
  let version_string :=
    match lines with
    | line :: _ => line
    | [] => default_describe
    end in
  let version_items := str_split dash (str_strip newline version_string) in
  match getitem_from_end version_items 2, getitem_from_end version_items 1 with
  | Some a, Some b => inr (a ++ "_" ++ b)%string
  | _, _ => inl VersionIndexError
  end.

(** ["CONDA_PREFIX" in os.environ and os.environ["CONDA_PREFIX"] in
    polymetis.__file__] *)
Definition in_conda (env : VersionEnv) : bool :=
  match conda_prefix env with
  | Some prefix => str_in prefix (polymetis_file env)
  | None => false
  end.

(** The module body: the outcome and the working directory it leaves. *)
Definition polymetis_version (env : VersionEnv) : (version_error + string) * string :=
  if in_conda env then
    match conda_version (conda_list_lines env) with
    | inl e => (inl e, original_cwd env)
    | inr v =>
        if String.eqb v EmptyString then (inl CannotLocate, original_cwd env)
        else (inr v, original_cwd env)
    end
  else
    match git_version (git_describe_lines env) with
    | inl e => (inl e, polymetis_dir env)
    | inr v =>
        if String.eqb v EmptyString then (inl CannotLocate, original_cwd env)
        else (inr v, original_cwd env)
    end.

(** An installation from a source checkout on an untagged commit. *)
Definition env_checkout : VersionEnv :=
  {| conda_prefix := None;
     polymetis_file := "/home/user/fairo/polymetis/polymetis/python/polymetis/__init__.py";
     polymetis_dir := "/home/user/fairo/polymetis/polymetis/python/polymetis";
     conda_list_lines := [];
     git_describe_lines := [String.append "v0.2-14-g3f2a9c1" (String newline EmptyString)];
     original_cwd := "/home/user" |}.

(** The same checkout on a commit that carries a tag. *)
Definition env_tagged : VersionEnv :=
  {| conda_prefix := None;
     polymetis_file := "/home/user/fairo/polymetis/polymetis/python/polymetis/__init__.py";
     polymetis_dir := "/home/user/fairo/polymetis/polymetis/python/polymetis";
     conda_list_lines := [];
     git_describe_lines := [String.append "v0.2" (String newline EmptyString)];
     original_cwd := "/home/user" |}.


(** An installation inside a conda environment that also holds a package
    whose name starts with [polymetis]. *)
Definition env_conda : VersionEnv :=
  {| conda_prefix := Some "/opt/conda/envs/robot"%string;
     polymetis_file := "/opt/conda/envs/robot/lib/python3.8/site-packages/polymetis/__init__.py";
     polymetis_dir := "/opt/conda/envs/robot/lib/python3.8/site-packages/polymetis";
     conda_list_lines :=
       [String.append "polymetis-deps    1.3   h2a4d_0   local" (String newline EmptyString);
        String.append "polymetis         0.2   py38_0    local" (String newline EmptyString)];
     git_describe_lines := [];
     original_cwd := "/home/user" |}.


(** The commands of the first [k] rounds of the polling loop started at
    history [h] with base joint [j0]: in each round the joint command with
    the base joint nudged once more, carrying the driver's answer at that
    point, then the settle sleep. *)
Fixpoint poll_rounds (rb : Robot) (h : history) (j0 : R) (rest : list R)
    (k : nat) : list event :=
  match k with
  | O => []
  | S k' =>
      let joint_angles := nudge j0 :: rest in
      let round :=
        [ArmSetJointPositions joint_angles None
           (arm_set_joint_positions rb h joint_angles None);
         Sleep _sleep_time] in
      round ++ poll_rounds rb (h ++ round) (nudge j0) rest k'
  end.


(** * Properties *)

(** ** Indexing *)

Lemma in_py_range (n i : Z) : In i (py_range n) <-> (0 <= i < n)%Z.
Proof.
  unfold py_range. rewrite in_map_iff. split.
  - intros (k & <- & Hk). apply in_seq in Hk. lia.
  - intros Hi. exists (Z.to_nat i). split; [lia|]. apply in_seq. lia.
Qed.

Lemma py_int_pixel (a bb i : Z) :
  py_int (inject_Z a - inject_Z bb + inject_Z i) = (a - bb + i)%Z.
Proof.
  unfold py_int. simpl. rewrite Z.quot_1_r. ring.
Qed.

Lemma in_sampled_indices (row col bb r c : Z) :
  In (r, c) (sampled_indices (inject_Z row, inject_Z col) bb) <->
  (row - bb <= r < row + bb /\ col - bb <= c < col + bb)%Z.
Proof.
  unfold sampled_indices. rewrite in_map_iff. split.
  - intros ((i, j) & Heq & Hin). apply in_prod_iff in Hin.
    rewrite !in_py_range in Hin. simpl in Heq.
    rewrite !py_int_pixel in Heq. inversion Heq; subst. lia.
  - intros Hb. exists ((r - row + bb)%Z, (c - col + bb)%Z). split.
    + simpl. rewrite !py_int_pixel. f_equal; ring.
    + apply in_prod_iff. rewrite !in_py_range. lia.
Qed.

Lemma np_axis_index_some (n : nat) (i : Z) (k : nat) :
  np_axis_index n i = Some k ->
  (k < n)%nat /\
  ((0 <= i < Z.of_nat n)%Z /\ Z.of_nat k = i \/
   (- Z.of_nat n <= i < 0)%Z /\ Z.of_nat k = (Z.of_nat n + i)%Z).
Proof.
  unfold np_axis_index.
  destruct (0 <=? i)%Z eqn:E1, (i <? Z.of_nat n)%Z eqn:E2; simpl;
    try destruct (- Z.of_nat n <=? i)%Z eqn:E3; simpl;
    try destruct (i <? 0)%Z eqn:E4; simpl; intros H; inversion H; subst; lia.
Qed.

Lemma np_axis_index_none (n : nat) (i : Z) :
  np_axis_index n i = None <-> (i < - Z.of_nat n \/ Z.of_nat n <= i)%Z.
Proof.
  unfold np_axis_index.
  destruct (0 <=? i)%Z eqn:E1, (i <? Z.of_nat n)%Z eqn:E2; simpl;
    try destruct (- Z.of_nat n <=? i)%Z eqn:E3; simpl;
    try destruct (i <? 0)%Z eqn:E4; simpl; split; intros H;
    try discriminate; try reflexivity; lia.
Qed.

Lemma np_axis_index_wraps (n : nat) (i : Z) :
  (- Z.of_nat n <= i < 0)%Z ->
  np_axis_index n i = np_axis_index n (i + Z.of_nat n).
Proof.
  intros Hi. unfold np_axis_index.
  destruct (0 <=? i)%Z eqn:E1; [lia|]. simpl.
  destruct (- Z.of_nat n <=? i)%Z eqn:E3; [|lia].
  destruct (i <? 0)%Z eqn:E4; [|lia]. simpl.
  destruct (0 <=? i + Z.of_nat n)%Z eqn:E5; [|lia].
  destruct (i + Z.of_nat n <? Z.of_nat n)%Z eqn:E6; [|lia]. simpl.
  f_equal. lia.
Qed.

Lemma depth_at_row_wraps (depth : depth_map) (r c : Z) :
  (- Z.of_nat (length depth) <= r < 0)%Z ->
  depth_at depth r c = depth_at depth (r + Z.of_nat (length depth)) c.
Proof.
  intros Hr. unfold depth_at. now rewrite (np_axis_index_wraps _ _ Hr).
Qed.

Lemma depth_at_col_wraps (depth : depth_map) (h w : nat) (r c : Z) :
  has_shape depth h w ->
  (- Z.of_nat w <= c < 0)%Z ->
  depth_at depth r c = depth_at depth r (c + Z.of_nat w).
Proof.
  intros [_ Hw] Hc. unfold depth_at.
  destruct (np_axis_index (length depth) r) as [r'|]; [|reflexivity].
  destruct (nth_error depth r') as [row|] eqn:En; [|reflexivity].
  apply nth_error_In in En. rewrite Forall_forall in Hw.
  rewrite (Hw _ En). now rewrite (np_axis_index_wraps _ _ Hc).
Qed.

Lemma depth_at_none (depth : depth_map) (h w : nat) (r c : Z) :
  has_shape depth h w ->
  depth_at depth r c = None <->
  (r < - Z.of_nat h \/ Z.of_nat h <= r \/ c < - Z.of_nat w \/ Z.of_nat w <= c)%Z.
Proof.
  intros [Hh Hw]. unfold depth_at. rewrite Forall_forall in Hw.
  destruct (np_axis_index (length depth) r) as [r'|] eqn:Er.
  - apply np_axis_index_some in Er. destruct Er as [Hlt Hr].
    destruct (nth_error depth r') as [row|] eqn:En.
    2:{ apply nth_error_None in En. lia. }
    pose proof (Hw _ (nth_error_In _ _ En)) as Hrow. rewrite Hrow.
    destruct (np_axis_index w c) as [c'|] eqn:Ec.
    + apply np_axis_index_some in Ec. destruct Ec as [Hltc Hc].
      split.
      * intros Hn. apply nth_error_None in Hn. lia.
      * lia.
    + apply np_axis_index_none in Ec. split; [lia | reflexivity].
  - apply np_axis_index_none in Er. split; [lia | reflexivity].
Qed.

(** ** Depth filter and averaging *)

Section Depth.
Local Open Scope Q_scope.

Lemma Qgtb_true (x y : Q) : Qgtb x y = true <-> y < x.
Proof.
  unfold Qgtb. rewrite negb_true_iff. split.
  - intros H. apply Qnot_le_lt. intros Hle.
    apply Qle_bool_iff in Hle. congruence.
  - intros H. destruct (Qle_bool x y) eqn:E; [|reflexivity].
    apply Qle_bool_iff in E. lra.
Qed.

Lemma Qgtb_false (x y : Q) : Qgtb x y = false <-> x <= y.
Proof.
  unfold Qgtb. rewrite negb_false_iff. apply Qle_bool_iff.
Qed.

Lemma depth_at_process_depth (depth : depth_map) (r c : Z) :
  depth_at (_process_depth depth) r c = option_map clip_depth (depth_at depth r c).
Proof.
  unfold depth_at, _process_depth. rewrite length_map.
  destruct (np_axis_index (length depth) r) as [r'|]; [|reflexivity].
  rewrite nth_error_map.
  destruct (nth_error depth r') as [row|]; [|reflexivity]. simpl.
  rewrite length_map.
  destruct (np_axis_index (length row) c) as [c'|]; [|reflexivity].
  rewrite nth_error_map. reflexivity.
Qed.

(** C3, as amended.  A sample exactly at 3.0 m passes the max-depth filter
    unchanged, only samples strictly above 3.0 m are zeroed; a sample
    exactly at 0.1 m is left out of the averaging sum and of its count. *)
Theorem depth_boundaries (depth : depth_map) (r c : Z) (d : Q) :
  depth_at depth r c = Some d ->
  (d == MAX_DEPTH -> depth_at (_process_depth depth) r c = Some d) /\
  (MAX_DEPTH < d -> depth_at (_process_depth depth) r c = Some 0) /\
  (d == MIN_DEPTH -> forall acc, z_step depth acc (r, c) = acc).
Proof.
  intros Hd. repeat split.
  - intros He. rewrite depth_at_process_depth, Hd. simpl. unfold clip_depth.
    destruct (Qgtb d MAX_DEPTH) eqn:E; [|reflexivity].
    apply Qgtb_true in E. lra.
  - intros Hlt. rewrite depth_at_process_depth, Hd. simpl. unfold clip_depth.
    apply Qgtb_true in Hlt. now rewrite Hlt.
  - intros He acc. unfold z_step. simpl. rewrite Hd.
    destruct (Qgtb d MIN_DEPTH) eqn:E; [|reflexivity].
    apply Qgtb_true in E. lra.
Qed.

Lemma depth_boundaries_witness :
  depth_at [[3; 1 # 10]] 0 1 = Some (1 # 10) /\
  (forall acc, z_step [[3; 1 # 10]] acc (0, 1)%Z = acc).
Proof.
  split; [reflexivity|].
  apply (depth_boundaries [[3; 1 # 10]] 0 1 (1 # 10)); reflexivity.
Defined.

(** C3, as stated, fails at its upper edge: the filter leaves a sample of
    exactly 3.0 m in place. *)
Lemma max_depth_sample_not_zeroed :
  depth_at (_process_depth [[MAX_DEPTH]]) 0 0 = Some MAX_DEPTH /\
  ~ MAX_DEPTH == 0.
Proof.
  split; [reflexivity|]. unfold MAX_DEPTH. lra.
Qed.

End Depth.

(** ** The sampled neighbourhood *)

Lemma z_step_ext (d1 d2 : depth_map) (acc : Q * nat) (rc1 rc2 : Z * Z) :
  depth_at d1 (fst rc1) (snd rc1) = depth_at d2 (fst rc2) (snd rc2) ->
  z_step d1 acc rc1 = z_step d2 acc rc2.
Proof.
  intros H. unfold z_step. now rewrite H.
Qed.

Lemma fold_z_step_ext (d1 d2 : depth_map) (l : list (Z * Z)) (acc : Q * nat) :
  (forall rc, In rc l -> depth_at d1 (fst rc) (snd rc) = depth_at d2 (fst rc) (snd rc)) ->
  fold_left (z_step d1) l acc = fold_left (z_step d2) l acc.
Proof.
  revert acc. induction l as [|rc l IH]; intros acc H; [reflexivity|].
  simpl. rewrite (z_step_ext d1 d2 acc rc rc) by (apply H; now left).
  apply IH. intros rc' Hin. apply H. now right.
Qed.

Lemma np_axis_index_inside (n : nat) (i : Z) :
  (0 <= i < Z.of_nat n)%Z -> np_axis_index n i = Some (Z.to_nat i).
Proof.
  intros Hi. unfold np_axis_index.
  destruct (Z.leb_spec 0 i); [|lia]. destruct (Z.ltb_spec i (Z.of_nat n)); [|lia].
  reflexivity.
Qed.

(** Inside the map an index pair reads the sample at its own position. *)
Lemma depth_at_inside (depth : depth_map) (h w : nat) (r c : Z) :
  has_shape depth h w ->
  (0 <= r < Z.of_nat h)%Z -> (0 <= c < Z.of_nat w)%Z ->
  exists line d,
    nth_error depth (Z.to_nat r) = Some line /\
    nth_error line (Z.to_nat c) = Some d /\
    depth_at depth r c = Some d.
Proof.
  intros [Hh Hw] Hr Hc. unfold depth_at. rewrite Forall_forall in Hw.
  rewrite Hh, (np_axis_index_inside h r Hr).
  destruct (nth_error depth (Z.to_nat r)) as [line|] eqn:En.
  2:{ apply nth_error_None in En. lia. }
  pose proof (Hw _ (nth_error_In _ _ En)) as Hl.
  rewrite Hl, (np_axis_index_inside w c Hc).
  destruct (nth_error line (Z.to_nat c)) as [d|] eqn:Ec.
  2:{ apply nth_error_None in Ec. lia. }
  exists line, d. auto.
Qed.

(** C5, as amended.  Around an integer pixel the loops build exactly the
    index pairs of the 10x10 window of row offsets [-5 .. 4] and column
    offsets [-5 .. 4], one hundred of them and none at offset [+5]; the
    average depends on the depth map only through what indexing answers at
    these index pairs (a negative index reads from the far border, an index
    past the array is skipped).  For a pixel whose window lies inside the
    map every one of these index pairs reads the sample at its own
    position, so the samples averaged are exactly those at offsets
    [-5 .. 4]. *)
Theorem z_mean_window (row col : Z) :
  (forall r c,
     In (r, c) (sampled_indices (inject_Z row, inject_Z col) BB_SIZE) <->
     (row - 5 <= r <= row + 4 /\ col - 5 <= c <= col + 4)%Z) /\
  length (sampled_indices (inject_Z row, inject_Z col) BB_SIZE) = 100%nat /\
  (forall d1 d2,
     (forall r c, (row - 5 <= r <= row + 4)%Z -> (col - 5 <= c <= col + 4)%Z ->
                  depth_at d1 r c = depth_at d2 r c) ->
     _get_z_mean d1 (inject_Z row, inject_Z col) BB_SIZE =
     _get_z_mean d2 (inject_Z row, inject_Z col) BB_SIZE) /\
  (forall depth h w,
     has_shape depth h w ->
     (5 <= row)%Z -> (row + 4 < Z.of_nat h)%Z ->
     (5 <= col)%Z -> (col + 4 < Z.of_nat w)%Z ->
     forall r c, (row - 5 <= r <= row + 4)%Z -> (col - 5 <= c <= col + 4)%Z ->
       exists line d,
         nth_error depth (Z.to_nat r) = Some line /\
         nth_error line (Z.to_nat c) = Some d /\
         depth_at depth r c = Some d).
Proof.
  assert (Hin : forall r c,
     In (r, c) (sampled_indices (inject_Z row, inject_Z col) BB_SIZE) <->
     (row - 5 <= r <= row + 4 /\ col - 5 <= c <= col + 4)%Z).
  { intros r c. rewrite in_sampled_indices. unfold BB_SIZE. lia. }
  split; [exact Hin|]. split; [|split].
  - unfold sampled_indices. rewrite length_map, length_prod.
    unfold py_range. rewrite !length_map, !length_seq. reflexivity.
  - intros d1 d2 H. unfold _get_z_mean, z_acc.
    rewrite (fold_z_step_ext d1 d2); [reflexivity|].
    intros [r c] Hrc. apply Hin in Hrc. simpl. apply H; lia.
  - intros depth h w Hs Hr0 Hr1 Hc0 Hc1 r c Hr Hc.
    apply (depth_at_inside depth h w r c Hs); lia.
Qed.

(** C5, as stated, fails: the sample five rows below the pixel belongs to
    the centred neighbourhood of half-width 5 but the loops never build its
    index, so a depth map whose only valid sample sits there averages to
    the "no depth" value 0. *)
Lemma offset_plus_five_not_sampled :
  In (15, 10)%Z (spec_neighborhood 10 10) /\
  ~ In (15, 10)%Z (sampled_indices (inject_Z 10, inject_Z 10) BB_SIZE) /\
  depth_at (single_sample 16 16 15 10 1) 15 10 = Some 1%Q /\
  _get_z_mean (single_sample 16 16 15 10 1) (inject_Z 10, inject_Z 10) BB_SIZE = 0%Q.
Proof.
  split; [|split; [|split]].
  - unfold spec_neighborhood. apply in_map_iff. exists (10, 5)%Z.
    split; [reflexivity|]. apply in_prod_iff. rewrite !in_py_range. lia.
  - rewrite in_sampled_indices. unfold BB_SIZE. lia.
  - reflexivity.
  - vm_compute. reflexivity.
Qed.

(** ** Negative indices *)

(** C10, as amended.  For a pixel whose row (column) is below 5 the loops
    build negative row (column) indices.  A negative index that is not
    below minus the length of its axis reads the sample that many places
    from the far border, so that sample enters the average; an index is
    skipped exactly when it is at or past the length of its axis or below
    minus that length.  On a depth map of at least 5 rows and 5 columns and
    a pixel of non-negative coordinates the second case never arises: only
    indices past the upper bounds are skipped. *)
Theorem negative_indices_wrap (depth : depth_map) (h w : nat) (row col : Z) :
  has_shape depth h w ->
  ((row < 5)%Z ->
   exists r c, In (r, c) (sampled_indices (inject_Z row, inject_Z col) BB_SIZE) /\ (r < 0)%Z) /\
  ((col < 5)%Z ->
   exists r c, In (r, c) (sampled_indices (inject_Z row, inject_Z col) BB_SIZE) /\ (c < 0)%Z) /\
  (forall r c acc, (- Z.of_nat h <= r < 0)%Z ->
     depth_at depth r c = depth_at depth (r + Z.of_nat h) c /\
     z_step depth acc (r, c) = z_step depth acc (r + Z.of_nat h, c)%Z) /\
  (forall r c acc, (- Z.of_nat w <= c < 0)%Z ->
     depth_at depth r c = depth_at depth r (c + Z.of_nat w) /\
     z_step depth acc (r, c) = z_step depth acc (r, c + Z.of_nat w)%Z) /\
  (forall r c,
     depth_at depth r c = None <->
     (r < - Z.of_nat h \/ Z.of_nat h <= r \/ c < - Z.of_nat w \/ Z.of_nat w <= c)%Z) /\
  ((5 <= h)%nat -> (5 <= w)%nat -> (0 <= row)%Z -> (0 <= col)%Z ->
   forall r c, In (r, c) (sampled_indices (inject_Z row, inject_Z col) BB_SIZE) ->
     (depth_at depth r c = None <-> (Z.of_nat h <= r \/ Z.of_nat w <= c)%Z)).
Proof.
  intros Hs. pose proof Hs as [Hh Hw].
  split; [|split; [|split; [|split; [|split]]]].
  - intros Hrow. exists (row - 5)%Z, (col - 5)%Z.
    rewrite in_sampled_indices. unfold BB_SIZE. lia.
  - intros Hcol. exists (row - 5)%Z, (col - 5)%Z.
    rewrite in_sampled_indices. unfold BB_SIZE. lia.
  - intros r c acc Hr. rewrite <- Hh in Hr.
    pose proof (depth_at_row_wraps depth r c Hr) as E. rewrite Hh in E.
    split; [exact E|]. apply z_step_ext. exact E.
  - intros r c acc Hc.
    pose proof (depth_at_col_wraps depth h w r c Hs Hc) as E.
    split; [exact E|]. apply z_step_ext. exact E.
  - intros r c. apply depth_at_none. exact Hs.
  - intros H5 W5 Hrow Hcol r c Hin.
    rewrite (depth_at_none depth h w r c Hs).
    apply in_sampled_indices in Hin. unfold BB_SIZE in Hin. lia.
Qed.

Lemma flat_depth_shape (v : Q) (h w : nat) : has_shape (flat_depth v h w) h w.
Proof.
  unfold has_shape, flat_depth. split.
  - apply repeat_length.
  - apply Forall_forall. intros row Hrow. apply repeat_spec in Hrow.
    subst row. apply repeat_length.
Qed.

Lemma negative_indices_wrap_witness :
  has_shape (flat_depth 1 6 6) 6 6 /\
  depth_at (flat_depth 1 6 6) (-5) 0 = depth_at (flat_depth 1 6 6) 1 0.
Proof.
  split; [apply flat_depth_shape|].
  pose proof (negative_indices_wrap (flat_depth 1 6 6) 6 6 0 0
                (flat_depth_shape 1 6 6)) as (_ & _ & Hrow & _).
  apply (Hrow (-5)%Z 0%Z (0%Q, O)). simpl. lia.
Defined.

(** C10, as stated, fails on a depth map of fewer than 5 rows: around pixel
    [(0, 0)] of a 3x3 map the loops build row index [-5], which is not past
    the upper bound and is skipped all the same. *)
Lemma short_map_skips_negative_index :
  In (-5, 0)%Z (sampled_indices (inject_Z 0, inject_Z 0) BB_SIZE) /\
  (-5 < 3)%Z /\
  depth_at (flat_depth 1 3 3) (-5) 0 = None.
Proof.
  split; [|split].
  - rewrite in_sampled_indices. unfold BB_SIZE. lia.
  - lia.
  - reflexivity.
Qed.

(** A pixel in the top-left corner averages the far corner: on a 6x6 map
    whose only valid sample is at [(5, 5)], the mean around [(0, 0)] is that
    sample. *)
Lemma corner_pixel_averages_far_corner :
  (_get_z_mean (single_sample 6 6 5 5 (1 # 2)) (inject_Z 0, inject_Z 0) BB_SIZE == 1 # 2)%Q.
Proof.
  vm_compute. reflexivity.
Qed.

(** ** Localization *)

Section Localize.
Local Open Scope Q_scope.


Lemma z_step_invariant (cur : depth_map) (acc : Q * nat) (rc : Z * Z) :
  0 <= fst acc -> ((0 < snd acc)%nat -> 0 < fst acc) ->
  0 <= fst (z_step cur acc rc) /\
  ((0 < snd (z_step cur acc rc))%nat -> 0 < fst (z_step cur acc rc)) /\
  (snd acc <= snd (z_step cur acc rc))%nat.
Proof.
  intros H0 H1. unfold z_step.
  destruct (depth_at cur (fst rc) (snd rc)) as [new_z|]; [|auto].
  destruct (Qgtb new_z MIN_DEPTH) eqn:E; [|auto].
  apply Qgtb_true in E. unfold MIN_DEPTH in E. simpl.
  repeat split; try lra. lia.
Qed.

Lemma z_fold_invariant (cur : depth_map) (l : list (Z * Z)) (acc : Q * nat) :
  0 <= fst acc -> ((0 < snd acc)%nat -> 0 < fst acc) ->
  0 <= fst (fold_left (z_step cur) l acc) /\
  ((0 < snd (fold_left (z_step cur) l acc))%nat ->
   0 < fst (fold_left (z_step cur) l acc)) /\
  (snd acc <= snd (fold_left (z_step cur) l acc))%nat.
Proof.
  revert acc. induction l as [|rc l IH]; intros acc H0 H1; simpl.
  - auto.
  - destruct (z_step_invariant cur acc rc H0 H1) as (A & B & C).
    destruct (IH _ A B) as (A' & B' & C'). repeat split; auto. lia.
Qed.

Lemma z_fold_counts (cur : depth_map) (l : list (Z * Z)) (acc : Q * nat)
    (rc : Z * Z) (new_z : Q) :
  0 <= fst acc -> ((0 < snd acc)%nat -> 0 < fst acc) ->
  In rc l -> depth_at cur (fst rc) (snd rc) = Some new_z ->
  Qgtb new_z MIN_DEPTH = true ->
  (0 < snd (fold_left (z_step cur) l acc))%nat.
Proof.
  revert acc. induction l as [|rc' l IH]; intros acc H0 H1 Hin Hd Hv; [easy|].
  simpl. destruct (z_step_invariant cur acc rc' H0 H1) as (A & B & C).
  destruct Hin as [-> | Hin].
  - destruct (z_fold_invariant cur l (z_step cur acc rc) A B) as (_ & _ & D).
    assert (0 < snd (z_step cur acc rc))%nat; [|lia].
    unfold z_step. rewrite Hd, Hv. simpl. lia.
  - now apply IH.
Qed.

Lemma z_fold_skips (cur : depth_map) (l : list (Z * Z)) (acc : Q * nat) :
  (forall rc new_z, In rc l -> depth_at cur (fst rc) (snd rc) = Some new_z ->
                    Qgtb new_z MIN_DEPTH = false) ->
  fold_left (z_step cur) l acc = acc.
Proof.
  revert acc. induction l as [|rc l IH]; intros acc H; [reflexivity|].
  simpl. assert (E : z_step cur acc rc = acc).
  { unfold z_step. destruct (depth_at cur (fst rc) (snd rc)) as [new_z|] eqn:Ed;
      [|reflexivity].
    now rewrite (H rc new_z (or_introl eq_refl) Ed). }
  rewrite E. apply IH. intros rc' new_z Hin. apply H. now right.
Qed.



End Localize.

Section Projection.
Local Open Scope Q_scope.

(** [linalg_inv] answers a right inverse: applying the matrix to the solved
    vector gives the vector back. *)
Lemma linalg_inv_solves (m m_inv : mat33) (v : vec3) :
  linalg_inv m = Ok m_inv ->
  let '(x, y, z) := dot3 m (dot3 m_inv v) in
  let '(vx, vy, vz) := v in
  x == vx /\ y == vy /\ z == vz.
Proof.
  destruct m as [[[[a b] c] [[d e] f]] [[g h] i]]. destruct v as [[vx vy] vz].
  unfold linalg_inv. cbv beta iota zeta.
  destruct (Qeq_bool _ 0) eqn:E; [discriminate|].
  apply Qeq_bool_neq in E. intros Hm. inversion Hm; subst m_inv; clear Hm.
  unfold det3 in *. cbn [dot3]. repeat split; field; exact E.
Qed.





(** Why the form of [camera_P] matters.  A matrix whose last row is not of
    that form can be invertible after back-projection and still solve to a
    vector whose last component is zero; the division by it then leaves
    coordinates that are not finite.  No camera publishes such a matrix. *)
Lemma skewed_projection_not_finite :
  neighbourhood_valid (single_sample 12 12 5 5 (1 # 2)) (inject_Z 5, inject_Z 5) /\
  (exists P_n_inv,
     linalg_inv (back_projection_matrix P_skewed
                   (_get_z_mean (_process_depth (single_sample 12 12 5 5 (1 # 2)))
                      (inject_Z 5, inject_Z 5) BB_SIZE)) = Ok P_n_inv) /\
  (exists z,
     _get_3D_camera (single_sample 12 12 5 5 (1 # 2)) P_skewed
       (inject_Z 5, inject_Z 5) None = Ok (NonFin, NonFin, Fin z)) /\
  ~ is_finite NonFin.
Proof.
  split; [|split; [|split]].
  - exists 5%Z, 5%Z, (1 # 2). split; [|split].
    + apply in_sampled_indices. unfold BB_SIZE. lia.
    + reflexivity.
    + unfold valid_depth, MIN_DEPTH, MAX_DEPTH. lra.
  - eexists. vm_compute. reflexivity.
  - eexists. vm_compute. reflexivity.
  - simpl. tauto.
Qed.

End Projection.

(** ** Grasp descriptor *)

Section Descriptor.
Local Open Scope Q_scope.

(** C9, as amended.  When [compute_grasp] returns, a three-entry descriptor
    [[row, col, angle]] has become the three-entry list [[x, y, angle]]: the
    first two coordinates of the base-frame point of the shifted pixel,
    then the angle as predicted; the depth coordinate is dropped. *)
Theorem compute_grasp_descriptor (tl : TransformListener xpoint)
    (depth : depth_map) (P : mat34) (row col angle : Q)
    (dims : (Z * Z) * (Z * Z)) (g : list xnum) :
  compute_grasp tl depth P [row; col; angle] dims = Ok g ->
  exists x y z,
    get_3D tl depth P
      (row + inject_Z (fst (fst dims)), col + inject_Z (fst (snd dims))) None
    = Ok (x, y, z) /\
    g = [x; y; Fin angle] /\
    length g = 3%nat.
Proof.
  unfold compute_grasp.
  destruct (get_3D tl depth P _ None) as [[[x y] z]|e]; [|discriminate].
  cbn [map nth_error]. intros H. inversion H; subst g.
  exists x, y, z. repeat split.
Qed.

Lemma compute_grasp_descriptor_witness :
  exists x y,
    compute_grasp tl_identity (flat_depth (1 # 2) 480 640) P_ideal
      [60; 220; 0] default_dims = Ok [x; y; Fin 0].
Proof.
  assert (E : exists g, compute_grasp tl_identity (flat_depth (1 # 2) 480 640) P_ideal
                          [60; 220; 0] default_dims = Ok g).
  { eexists. vm_compute. reflexivity. }
  destruct E as [g E].
  destruct (compute_grasp_descriptor _ _ _ _ _ _ _ _ E) as (x & y & z & _ & Hg & _).
  exists x, y. rewrite E, Hg. reflexivity.
Defined.

(** C9, as stated, fails: on a flat depth map at 0.5 m, an ideal pinhole
    camera and an identity transform, the descriptor [[60, 220, 0]] comes
    back with three entries, not four. *)
Lemma descriptor_keeps_three_entries :
  exists g,
    compute_grasp tl_identity (flat_depth (1 # 2) 480 640) P_ideal
      [60; 220; 0] default_dims = Ok g /\
    length g = 3%nat /\ length g <> 4%nat.
Proof.
  eexists. split; [vm_compute; reflexivity|]. split; [reflexivity | discriminate].
Qed.

End Descriptor.

(** ** Grasp angle *)

Section Angle.
Local Open Scope R_scope.

Lemma PI_gt_3 : 3 < PI.
Proof. pose proof PI2_3_2. lra. Qed.

Lemma PI_lt_4 : PI < 4.
Proof.
  pose proof (PI_ineq 1) as H. unfold sum_f_R0, tg_alt, PI_tg in H.
  simpl in H. lra.
Qed.

Lemma np_arctan2_front (x : R) : 0 < x -> np_arctan2 0 x = 0.
Proof.
  intros Hx. unfold np_arctan2. destruct (Rlt_dec 0 x); [|contradiction].
  replace (0 / x) with 0 by (field; lra). apply atan_0.
Qed.

Lemma np_arctan2_back (x : R) : x < 0 -> np_arctan2 0 x = PI.
Proof.
  intros Hx. unfold np_arctan2.
  destruct (Rlt_dec 0 x); [lra|]. destruct (Rlt_dec x 0); [|contradiction].
  destruct (Rle_dec 0 0); [|lra].
  replace (0 / x) with 0 by (field; lra). rewrite atan_0. ring.
Qed.

Lemma atan_nonpos (t : R) : t <= 0 -> atan t <= 0.
Proof.
  intros [Ht | ->].
  - left. rewrite <- atan_0. now apply atan_increasing.
  - rewrite atan_0. lra.
Qed.

Lemma atan_nonneg (t : R) : 0 <= t -> 0 <= atan t.
Proof.
  intros [Ht | <-].
  - left. rewrite <- atan_0. now apply atan_increasing.
  - rewrite atan_0. lra.
Qed.

(** The arc tangent of two arguments stays in [[-pi, pi]]. *)
Lemma np_arctan2_bound (y x : R) : - PI <= np_arctan2 y x <= PI.
Proof.
  pose proof PI_RGT_0 as Hpi. unfold np_arctan2.
  destruct (Rlt_dec 0 x) as [Hx|Hx].
  - pose proof (atan_bound (y / x)). lra.
  - destruct (Rlt_dec x 0) as [Hx'|Hx'].
    + destruct (Rle_dec 0 y) as [Hy|Hy].
      * assert (y / x <= 0).
        { pose proof (Rinv_lt_0_compat _ Hx'). unfold Rdiv. nra. }
        pose proof (atan_nonpos _ H). pose proof (atan_bound (y / x)). lra.
      * assert (0 <= y / x).
        { pose proof (Rinv_lt_0_compat _ Hx'). unfold Rdiv. nra. }
        pose proof (atan_nonneg _ H). pose proof (atan_bound (y / x)). lra.
    + destruct (Rlt_dec 0 y); [lra|]. destruct (Rlt_dec y 0); lra.
Qed.

Lemma wrap_angle_in_range (delta_angle : R) :
  - (PI / 2) <= delta_angle <= 3 * PI / 2 ->
  - (PI / 2) <= wrap_angle delta_angle <= PI / 2.
Proof.
  intros H. unfold wrap_angle.
  destruct (Rlt_dec (PI / 2) delta_angle); [lra|].
  destruct (Rlt_dec delta_angle (- PI / 2)); lra.
Qed.

(** The third branch of the wrap: a sum between [-3 pi / 2] and [-pi / 2]
    is sent above [pi / 2]. *)
Lemma wrap_angle_below (delta_angle : R) :
  - (3 * PI / 2) < delta_angle < - (PI / 2) ->
  wrap_angle delta_angle = 2 * PI + delta_angle /\
  PI / 2 < wrap_angle delta_angle.
Proof.
  intros H. pose proof PI_RGT_0. unfold wrap_angle.
  destruct (Rlt_dec (PI / 2) delta_angle); [lra|].
  destruct (Rlt_dec delta_angle (- PI / 2)); lra.
Qed.

(** C1, as amended.  Whenever the sum [angle + arctan2(y, x)] lies between
    [-pi / 2] and [3 pi / 2], the angle returned by [get_grasp_angle] lies in
    [[-pi / 2, pi / 2]]. *)
Theorem grasp_angle_range (x y angle : R) :
  - (PI / 2) <= angle + np_arctan2 y x <= 3 * PI / 2 ->
  exists v, get_grasp_angle [x; y; angle] = Ok v /\ - (PI / 2) <= v <= PI / 2.
Proof.
  intros H. exists (wrap_angle (angle + np_arctan2 y x)).
  split; [reflexivity|]. now apply wrap_angle_in_range.
Qed.

Lemma grasp_angle_range_witness :
  exists v, get_grasp_angle [1; 0; 2] = Ok v /\ - (PI / 2) <= v <= PI / 2.
Proof.
  apply (grasp_angle_range 1 0 2).
  rewrite np_arctan2_front by lra. pose proof PI_gt_3. lra.
Defined.

(** C1, as stated, fails: for a target straight behind the base and a
    predicted angle of 2.5 rad the sum is [2.5 + pi], one subtraction of [pi]
    leaves 2.5, which is above [pi / 2]. *)
Lemma grasp_angle_above_range :
  exists v, get_grasp_angle [-1; 0; 2.5] = Ok v /\ PI / 2 < v.
Proof.
  exists (wrap_angle (2.5 + np_arctan2 0 (-1))). split; [reflexivity|].
  rewrite np_arctan2_back by lra. pose proof PI_RGT_0. pose proof PI_lt_4.
  unfold wrap_angle. destruct (Rlt_dec (PI / 2) (2.5 + PI)); lra.
Qed.

(** The example of the specification: pose [(1, 0)] with angle [-2.0] comes
    back as [2 pi - 2], above [pi / 2]. *)
Lemma grasp_angle_minus_two :
  get_grasp_angle [1; 0; -2] = Ok (wrap_angle (-2 + np_arctan2 0 1)) /\
  wrap_angle (-2 + np_arctan2 0 1) = 2 * PI - 2 /\
  PI / 2 < 2 * PI - 2.
Proof.
  split; [reflexivity|]. rewrite np_arctan2_front by lra.
  pose proof PI_gt_3. pose proof PI_lt_4.
  destruct (wrap_angle_below (-2 + 0)) as [E _]; [lra|].
  rewrite E. split; lra.
Qed.

End Angle.

(** Runs an embedded method on a concrete robot, leaving the real-number
    expressions as they are. *)
Ltac run_robot :=
  lazy -[Rplus Rminus Rmult Ropp Rdiv Rinv IZR PI Rlt_dec Rle_dec atan
         np_sign np_deg2rad np_arctan2 wrap_angle nudge py_sum
         x_offset y_offset pregrasp_height grasp_height DEFAULT_PITCH
         _sleep_time pregrasp_pitch].

(** ** reset *)

Section Reset.

Lemma reset_loop_trace (rb : Robot) (n : nat) (h : history) :
  (n = O /\ reset_loop rb n false h = (Ok false, h)) \/
  exists failed success,
    (failed < n)%nat /\ (success = false -> S failed = n) /\
    reset_loop rb n false h =
      (Ok success,
       h ++ concat (repeat (reset_round false) failed) ++ reset_round success).
Proof.
  revert h. induction n as [|n IH]; intros h; [left; auto|]. right.
  cbn [reset_loop]. unfold bind, go_home, emit, set_joint_positions.
  set (h1 := h ++ [ArmGoHome]).
  destruct (arm_set_joint_positions rb h1 retract_position (Some false)) eqn:E.
  - exists O, true. repeat split; [lia | discriminate |].
    unfold ret, h1, reset_round. cbn [repeat concat app].
    now rewrite <- app_assoc.
  - set (h2 := h1 ++ [ArmSetJointPositions retract_position (Some false) false]).
    assert (Eh2 : h2 = h ++ reset_round false).
    { unfold h2, h1, reset_round. now rewrite <- app_assoc. }
    destruct (IH h2) as [[-> Hl] | (failed & success & Hlt & Hs & Hl)].
    + exists O, false. repeat split; [lia|]. rewrite Hl, Eh2. reflexivity.
    + exists (S failed), success. repeat split; [lia | intros Hf; now rewrite Hs |].
      rewrite Hl, Eh2. cbn [repeat concat]. now rewrite <- !app_assoc.
Qed.

Lemma reset_rounds_shift (h x : history) (i : nat) :
  (h ++ reset_round false) ++ concat (repeat (reset_round false) i) ++ x
  = h ++ concat (repeat (reset_round false) (S i)) ++ x.
Proof.
  cbn [repeat concat]. now rewrite <- !app_assoc.
Qed.

(** The loop of [reset] with the driver's answers: the retract command of
    round [i + 1] is sent at the history [h], [i] failed rounds and a go-home
    later, and the answer recorded is the driver's answer there. *)
Lemma reset_loop_answers (rb : Robot) (n : nat) (h : history) :
  (n = O /\ reset_loop rb n false h = (Ok false, h)) \/
  exists failed success,
    (failed < n)%nat /\
    (forall i, (i < failed)%nat ->
       arm_set_joint_positions rb
         (h ++ concat (repeat (reset_round false) i) ++ [ArmGoHome])
         retract_position (Some false) = false) /\
    arm_set_joint_positions rb
      (h ++ concat (repeat (reset_round false) failed) ++ [ArmGoHome])
      retract_position (Some false) = success /\
    (success = false -> S failed = n) /\
    reset_loop rb n false h =
      (Ok success,
       h ++ concat (repeat (reset_round false) failed) ++ reset_round success).
Proof.
  revert h. induction n as [|n IH]; intros h; [left; auto|]. right.
  cbn [reset_loop]. unfold bind, go_home, emit, set_joint_positions.
  set (h1 := h ++ [ArmGoHome]).
  destruct (arm_set_joint_positions rb h1 retract_position (Some false)) eqn:E.
  - exists O, true. split; [lia|]. split; [intros i Hi; lia|].
    split; [exact E|]. split; [discriminate|].
    unfold ret, h1, reset_round. cbn [repeat concat app].
    now rewrite <- app_assoc.
  - set (h2 := h1 ++ [ArmSetJointPositions retract_position (Some false) false]).
    assert (Eh2 : h2 = h ++ reset_round false).
    { unfold h2, h1, reset_round. now rewrite <- app_assoc. }
    destruct (IH h2) as [[-> Hl] | (failed & success & Hlt & Ha & Hsucc & Hs & Hl)].
    + exists O, false. split; [lia|]. split; [intros i Hi; lia|].
      split; [exact E|]. split; [reflexivity|].
      rewrite Hl, Eh2. reflexivity.
    + exists (S failed), success. split; [lia|]. rewrite Eh2 in Ha, Hsucc.
      split; [|split; [|split]].
      * intros [|i] Hi; [exact E|].
        rewrite <- reset_rounds_shift. apply Ha. lia.
      * rewrite <- reset_rounds_shift. exact Hsucc.
      * intros Hf. now rewrite Hs.
      * rewrite Hl, Eh2. now rewrite reset_rounds_shift.
Qed.

(** C7.  [reset] runs the home-then-retract round at most [n_tries] = 5
    times and stops at the first success: the arm driver refused the
    retract command of each of the first [failed] rounds, the round after
    them is the last, and the driver's answer to its retract command is the
    value returned; a refused last round is the fifth.  Each answer is the
    driver's answer at the history at which the command was sent.  The
    gripper is opened and the camera pan and tilt are recentred after the
    rounds whatever that answer was. *)
Theorem reset_outcome (rb : Robot) (h : history) :
  exists failed success,
    (S failed <= n_tries)%nat /\
    (forall i, (i < failed)%nat ->
       arm_set_joint_positions rb
         (h ++ concat (repeat (reset_round false) i) ++ [ArmGoHome])
         retract_position (Some false) = false) /\
    arm_set_joint_positions rb
      (h ++ concat (repeat (reset_round false) failed) ++ [ArmGoHome])
      retract_position (Some false) = success /\
    (success = false -> S failed = n_tries) /\
    reset rb h =
      (Ok success,
       h ++ concat (repeat (reset_round false) failed) ++ reset_round success
         ++ [GripperOpen; CameraSetPan reset_pan; CameraSetTilt reset_tilt]).
Proof.
  destruct (reset_loop_answers rb n_tries h)
    as [[Hn _] | (failed & success & Hlt & Ha & Hsucc & Hs & Hl)].
  { discriminate. }
  exists failed, success. split; [lia|]. split; [exact Ha|].
  split; [exact Hsucc|]. split; [exact Hs|].
  unfold reset, bind. rewrite Hl. unfold emit, ret.
  rewrite <- !app_assoc. reflexivity.
Qed.

End Reset.

(** ** Marker polling *)

Section Polling.
Local Open Scope R_scope.

Lemma np_deg2rad_2_pos : 0 < np_deg2rad 2.
Proof. unfold np_deg2rad. pose proof PI_RGT_0. lra. Qed.

Lemma np_sign_pos (x : R) : 0 < x -> np_sign x = 1.
Proof.
  intros H. unfold np_sign. destruct (Rlt_dec x 0); [lra|].
  destruct (Rlt_dec 0 x); [reflexivity | contradiction].
Qed.

Lemma np_sign_neg (x : R) : x < 0 -> np_sign x = -1.
Proof.
  intros H. unfold np_sign. destruct (Rlt_dec x 0); [reflexivity | contradiction].
Qed.

Lemma np_sign_zero : np_sign 0 = 0.
Proof.
  unfold np_sign. destruct (Rlt_dec 0 0); [lra | reflexivity].
Qed.

Lemma nudge_cases (j0 : R) :
  (0 < j0 -> nudge j0 = j0 - np_deg2rad 2) /\
  (j0 < 0 -> nudge j0 = j0 + np_deg2rad 2) /\
  (j0 = 0 -> nudge j0 = 0).
Proof.
  unfold nudge. repeat split; intros H.
  - rewrite np_sign_pos by exact H. ring.
  - rewrite np_sign_neg by exact H. ring.
  - subst j0. rewrite np_sign_zero. ring.
Qed.

Lemma nudge_abs (j0 : R) :
  np_deg2rad 2 <= Rabs j0 -> Rabs (nudge j0) = Rabs j0 - np_deg2rad 2.
Proof.
  pose proof np_deg2rad_2_pos as Hd.
  destruct (nudge_cases j0) as (Hp & Hn & _).
  intros H. destruct (Rlt_dec 0 j0) as [Hpos|Hnp].
  - rewrite (Hp Hpos). rewrite (Rabs_right j0) in * by lra.
    apply Rabs_right. lra.
  - assert (Hneg : j0 < 0).
    { destruct (Req_dec j0 0) as [->|]; [rewrite Rabs_R0 in H; lra | lra]. }
    rewrite (Hn Hneg). rewrite (Rabs_left j0) in * by exact Hneg.
    rewrite Rabs_left1 by lra. ring.
Qed.

(** One round of the polling loop on a missing or stale marker. *)
Lemma poll_marker_round (rb : Robot) (n : nat) (j0 : R) (rest : list R)
    (h : history) :
  marker_not_visible (marker_data rb h) (time_now_secs rb h) = true ->
  poll_marker rb (S n) (j0 :: rest) h =
  poll_marker rb n (nudge j0 :: rest)
    (h ++ [ArmSetJointPositions (nudge j0 :: rest) None
             (arm_set_joint_positions rb h (nudge j0 :: rest) None);
           Sleep _sleep_time]).
Proof.
  intros Hv. cbn [poll_marker]. unfold bind at 1. unfold ask. rewrite Hv.
  unfold bind at 1. unfold lift, nudge_base. cbn [getitem nth_error setitem].
  unfold bind at 1. unfold set_joint_positions.
  unfold bind at 1. unfold sleep, emit.
  rewrite <- app_assoc. reflexivity.
Qed.

(** C6, as amended.  On every missing or stale read the loop commands the
    joint positions with the base joint moved by 2 degrees toward zero
    ([j0 - 2 deg] for a positive angle, [j0 + 2 deg] for a negative one,
    unchanged at zero), sleeps one settle time and polls again; the absolute
    value of an angle of at least 2 degrees decreases by 2 degrees. *)
Theorem nudge_toward_zero (rb : Robot) (n : nat) (j0 : R) (rest : list R)
    (h : history) :
  marker_not_visible (marker_data rb h) (time_now_secs rb h) = true ->
  poll_marker rb (S n) (j0 :: rest) h =
    poll_marker rb n (nudge j0 :: rest)
      (h ++ [ArmSetJointPositions (nudge j0 :: rest) None
               (arm_set_joint_positions rb h (nudge j0 :: rest) None);
             Sleep _sleep_time]) /\
  (0 < j0 -> nudge j0 = j0 - np_deg2rad 2) /\
  (j0 < 0 -> nudge j0 = j0 + np_deg2rad 2) /\
  (j0 = 0 -> nudge j0 = 0) /\
  (np_deg2rad 2 <= Rabs j0 -> Rabs (nudge j0) = Rabs j0 - np_deg2rad 2).
Proof.
  intros Hv. split; [now apply poll_marker_round|].
  destruct (nudge_cases j0) as (Hp & Hn & Hz).
  repeat split; auto. apply nudge_abs.
Qed.

Lemma nudge_toward_zero_witness :
  marker_not_visible (marker_data rb_stuck []) (time_now_secs rb_stuck []) = true /\
  Rabs (nudge 1) = Rabs 1 - np_deg2rad 2.
Proof.
  split; [reflexivity|].
  destruct (nudge_toward_zero rb_stuck 4 1 [0; 0; 0; 0] [] eq_refl)
    as (_ & _ & _ & _ & Habs).
  apply Habs. rewrite Rabs_R1. unfold np_deg2rad. pose proof PI_lt_4. lra.
Defined.

(** C6, as stated, fails: from a base joint at 1 rad the commanded angle is
    [1 - 2 deg], whose absolute value is the old one minus 2 degrees, not
    plus. *)
Lemma nudge_decreases_base_angle :
  nudge_base [1; 0; 0; 0; 0] = Ok [nudge 1; 0; 0; 0; 0] /\
  Rabs (nudge 1) = Rabs 1 - np_deg2rad 2 /\
  Rabs (nudge 1) <> Rabs 1 + np_deg2rad 2.
Proof.
  assert (H : Rabs (nudge 1) = Rabs 1 - np_deg2rad 2).
  { apply nudge_abs. rewrite Rabs_R1. unfold np_deg2rad.
    pose proof PI_lt_4. lra. }
  split; [reflexivity|]. split; [exact H|].
  rewrite H. pose proof np_deg2rad_2_pos. lra.
Qed.

(** Part of C2 that holds: when [_find_pose_error] returns and no marker
    message has arrived by then, the drift is [(0, 0)]. *)
Lemma find_pose_error_marker_absent (rb : Robot) (h t : history) (delta : R * R) :
  _find_pose_error rb h = (Ok delta, t) ->
  marker_data rb t = None ->
  delta = (0, 0).
Proof.
  unfold _find_pose_error.
  unfold bind at 1. unfold emit at 1.
  unfold bind at 1. unfold sleep at 1, emit at 1.
  unfold bind at 1. unfold ask at 1.
  unfold bind at 1. unfold lift at 1.
  destruct (setitem _ 3 _) as [ja|e]; [|discriminate].
  unfold bind at 1. unfold set_joint_positions at 1.
  unfold bind at 1. unfold sleep at 1, emit at 1.
  unfold bind at 1.
  destruct (poll_marker rb 5 ja _) as [[ja'|e] h']; [|discriminate].
  unfold bind at 1. unfold ask at 1.
  destruct (marker_data rb h') as [d|] eqn:Em.
  - unfold bind at 1. unfold lift at 1.
    destruct (_convert_frames _ _) as [[[cx cy] cz]|e]; [|discriminate].
    destruct (lookupTransform _ _ _) as [[[mx my] mz]|]; [|discriminate].
    unfold ret. intros H Hn. inversion H; subst. congruence.
  - unfold ret. intros H _. now inversion H.
Qed.

(** Part of C2 that holds: with no marker message at all the five rounds
    are spent, the drift is [(0, 0)], and [grasp] goes on through the second
    pregrasp pose, the descent, the gripper and the retract, at the target
    shifted by the fixed offsets only. *)
Lemma grasp_continues_without_marker :
  (exists t, _find_pose_error rb_blind [] = (Ok (0, 0), t) /\ length t = 14%nat) /\
  exists t,
    grasp rb_blind [1; 0; 0] [] = (Ok true, t) /\
    In (ArmSetEEPosePitchRoll
          [1 + (0 + x_offset); 0 + (0 + y_offset); grasp_height] DEFAULT_PITCH
          (wrap_angle (0 + np_arctan2 0 1)) true) t /\
    In GripperClose t.
Proof.
  split.
  - eexists. split; [run_robot; reflexivity | reflexivity].
  - eexists. split; [run_robot; reflexivity|]. split.
    + do 18 right. left. reflexivity.
    + do 20 right. left. reflexivity.
Qed.

(** C2 at its failing input.  The robot saw the marker ten seconds ago and
    not since: every poll finds it not visible, the loop runs its five
    rounds (fourteen commands in all), and [_find_pose_error] still answers
    the drift computed from the old message, [(1, 2)], instead of [(0, 0)]. *)
Theorem stale_marker_drift :
  (forall h, marker_not_visible (marker_data rb_stale h) (time_now_secs rb_stale h) = true) /\
  exists t, _find_pose_error rb_stale [] = (Ok (1 - 0, 2 - 0), t) /\
            length t = 14%nat /\
            (1 - 0, 2 - 0) <> (0, 0).
Proof.
  split; [intros h; reflexivity|].
  eexists. split; [run_robot; reflexivity|].
  split; [reflexivity|].
  intros H. inversion H. lra.
Qed.

End Polling.

(** ** Staged execution *)

Section Stages.

Lemma scan_app (c : nat) (t1 t2 : list event) :
  scan c (t1 ++ t2) =
  match scan c t1 with
  | Some c' => scan c' t2
  | None => None
  end.
Proof.
  revert c. induction t1 as [|e t1 IH]; intros c; [reflexivity|].
  cbn [app scan]. destruct (n_tries <=? c)%nat; [reflexivity | apply IH].
Qed.

Lemma scan_failed_run (fails post : list event) (c c' : nat) :
  Forall (fun e => pose_command_failed e = true) fails ->
  scan c (fails ++ post) = Some c' ->
  scan (c + length fails) post = Some c' /\
  (fails = [] \/ (c + length fails <= n_tries)%nat).
Proof.
  intros Hf. revert c. induction Hf as [|e fails He Hf IH]; intros c Hs.
  - cbn [app length] in *. rewrite Nat.add_0_r. auto.
  - cbn [app scan] in Hs. destruct (Nat.leb_spec n_tries c) as [|Hc]; [discriminate|].
    rewrite He in Hs. destruct (IH _ Hs) as [Hs' Hb].
    cbn [length]. rewrite Nat.add_succ_r. split; [exact Hs'|].
    right. destruct Hb as [-> | Hb]; cbn [length] in *; lia.
Qed.

(** What the monitor's verdict means: in a trace it accepts, a run of
    [n_tries] failed pose commands can only stand at the very end, and then
    the monitor ends in state [n_tries]. *)
Lemma scan_accepts (tr pre fails post : list event) (c c' : nat) :
  scan c tr = Some c' ->
  tr = pre ++ fails ++ post ->
  length fails = n_tries ->
  Forall (fun e => pose_command_failed e = true) fails ->
  post = [] /\ c' = n_tries.
Proof.
  intros Hs -> Hl Hf. revert c Hs. induction pre as [|e pre IH]; intros c Hs.
  - cbn [app] in Hs. destruct (scan_failed_run _ _ _ _ Hf Hs) as [Hs' Hb].
    rewrite Hl in *. destruct Hb as [-> | Hb]; [discriminate|].
    assert (c = O) by lia. subst c. cbn [Nat.add] in Hs'.
    destruct post as [|e post]; [|discriminate].
    cbn [scan] in Hs'. inversion Hs'. auto.
  - cbn [app scan] in Hs. destruct (n_tries <=? c)%nat; [discriminate|].
    eapply IH. exact Hs.
Qed.

Lemma tracks_bind {A B : Type} (c0 : nat) (m : M A) (k : A -> M B)
    (P1 : result A -> nat -> Prop) (P2 : result B -> nat -> Prop) :
  tracks c0 m P1 ->
  (forall a c1, P1 (Ok a) c1 -> tracks c1 (k a) P2) ->
  (forall e c1, P1 (Raise e) c1 -> P2 (Raise e) c1) ->
  tracks c0 (bind m k) P2.
Proof.
  intros Hm Hk He h. destruct (Hm h) as (r1 & t1 & c1 & Em & Es & Hp).
  unfold bind. rewrite Em. destruct r1 as [a|e].
  - destruct (Hk a c1 Hp (h ++ t1)) as (r2 & t2 & c2 & Ek & Es2 & Hp2).
    exists r2, (t1 ++ t2), c2. rewrite Ek, app_assoc. split; [reflexivity|].
    split; [|exact Hp2]. now rewrite scan_app, Es.
  - exists (Raise e), t1, c1. auto.
Qed.

Lemma tracks_ret {A : Type} (c0 : nat) (a : A) (P : result A -> nat -> Prop) :
  P (Ok a) c0 -> tracks c0 (ret a) P.
Proof.
  intros H h. exists (Ok a), [], c0. unfold ret. now rewrite app_nil_r.
Qed.

Lemma tracks_raise {A : Type} (c0 : nat) (e : exn) (P : result A -> nat -> Prop) :
  P (Raise e) c0 -> tracks c0 (raise e) P.
Proof.
  intros H h. exists (Raise e), [], c0. unfold raise. now rewrite app_nil_r.
Qed.

Lemma tracks_bind_lift {A B : Type} (c0 : nat) (r : result A) (k : A -> M B)
    (P : result B -> nat -> Prop) :
  (forall a, r = Ok a -> tracks c0 (k a) P) ->
  (forall e, r = Raise e -> P (Raise e) c0) ->
  tracks c0 (bind (lift r) k) P.
Proof.
  intros Hk He. apply tracks_bind with (P1 := fun r' c => r' = r /\ c = c0).
  - intros h. exists r, [], c0. unfold lift. now rewrite app_nil_r.
  - intros a c1 [E ->]. now apply Hk.
  - intros e c1 [E ->]. now apply He.
Qed.

Lemma tracks_bind_ask {B : Type} (c0 : nat) (k : history -> M B)
    (P : result B -> nat -> Prop) :
  (forall h, tracks c0 (k h) P) -> tracks c0 (bind ask k) P.
Proof.
  intros Hk h. unfold bind, ask. apply Hk.
Qed.

Lemma tracks_bind_emit {B : Type} (c0 : nat) (e : event) (k : unit -> M B)
    (P : result B -> nat -> Prop) :
  (c0 < n_tries)%nat -> pose_command_failed e = false ->
  tracks O (k tt) P ->
  tracks c0 (bind (emit e) k) P.
Proof.
  intros Hc He Hk. apply tracks_bind with (P1 := fun r c => r = Ok tt /\ c = O).
  - intros h. exists (Ok tt), [e], O. unfold emit. split; [reflexivity|].
    split; [|auto]. cbn [scan]. rewrite He.
    destruct (Nat.leb_spec n_tries c0); [lia | reflexivity].
  - intros [] c1 [_ ->]. exact Hk.
  - intros e' c1 [E _]. discriminate.
Qed.

Lemma tracks_bind_set_joint_positions {B : Type} (c0 : nat) (rb : Robot)
    (positions : list R) (plan : option bool) (k : bool -> M B)
    (P : result B -> nat -> Prop) :
  (c0 < n_tries)%nat ->
  (forall success, tracks O (k success) P) ->
  tracks c0 (bind (set_joint_positions rb positions plan) k) P.
Proof.
  intros Hc Hk. apply tracks_bind with (P1 := fun r c => (exists b, r = Ok b) /\ c = O).
  - intros h. eexists _, [_], O. unfold set_joint_positions.
    split; [reflexivity|]. split; [|eauto]. cbn [scan pose_command_failed].
    destruct (Nat.leb_spec n_tries c0); [lia | reflexivity].
  - intros b c1 [_ ->]. apply Hk.
  - intros e c1 [[b E] _]. discriminate.
Qed.

(** The retry loop either ends on a success, after which the run of
    failures is broken, or adds one failed pose command per round. *)
Lemma tracks_set_pose_loop (rb : Robot) (n c0 : nat) (position : list R)
    (pitch roll : R) :
  (c0 + n <= n_tries)%nat ->
  tracks c0 (set_pose_loop rb n position pitch roll false)
    (fun r c => (r = Ok true /\ c = O) \/ (r = Ok false /\ c = (c0 + n)%nat)).
Proof.
  revert c0. induction n as [|n IH]; intros c0 Hc.
  - cbn [set_pose_loop]. apply tracks_ret. right. split; [reflexivity | lia].
  - cbn [set_pose_loop].
    apply tracks_bind with
      (P1 := fun r c => (r = Ok true /\ c = O) \/ (r = Ok false /\ c = S c0)).
    + intros h. unfold set_ee_pose_pitch_roll.
      destruct (arm_set_ee_pose_pitch_roll rb h position pitch roll) eqn:E.
      * eexists _, [_], O. split; [reflexivity|]. split; [|auto].
        cbn [scan pose_command_failed].
        destruct (Nat.leb_spec n_tries c0); [lia | reflexivity].
      * eexists _, [_], (S c0). split; [reflexivity|]. split; [|auto].
        cbn [scan pose_command_failed].
        destruct (Nat.leb_spec n_tries c0); [lia | reflexivity].
    + intros success c1 [[E ->] | [E ->]]; inversion E; subst success.
      * apply tracks_ret. auto.
      * specialize (IH (S c0)). rewrite Nat.add_succ_r. apply IH. lia.
    + intros e c1 [[E _] | [E _]]; discriminate.
Qed.

Lemma tracks_bind_set_pose {B : Type} (rb : Robot) (position : list R)
    (pitch roll : R) (k : bool -> M B) (P : result B -> nat -> Prop) :
  tracks O (k true) P ->
  tracks n_tries (k false) P ->
  tracks O (bind (set_pose rb position pitch roll) k) P.
Proof.
  intros Ht Hf. unfold set_pose.
  eapply tracks_bind; [apply (tracks_set_pose_loop rb n_tries O); lia | |].
  - intros success c1 [[E ->] | [E ->]]; inversion E; subst success; assumption.
  - intros e c1 [[E _] | [E _]]; discriminate.
Qed.

Lemma tracks_poll_marker (rb : Robot) (n : nat) (joint_angles : list R) :
  tracks O (poll_marker rb n joint_angles) (fun _ c => c = O).
Proof.
  revert joint_angles. induction n as [|n IH]; intros joint_angles.
  - apply tracks_ret. reflexivity.
  - cbn [poll_marker]. apply tracks_bind_ask. intros h.
    destruct (marker_not_visible _ _).
    + apply tracks_bind_lift; [|reflexivity]. intros ja _.
      apply tracks_bind_set_joint_positions; [unfold n_tries; lia|]. intros _.
      apply tracks_bind_emit; [unfold n_tries; lia | reflexivity |]. apply IH.
    + apply tracks_ret. reflexivity.
Qed.

(** The calibration step sends no pose command. *)
Lemma tracks_find_pose_error (rb : Robot) :
  tracks O (_find_pose_error rb) (fun _ c => c = O).
Proof.
  unfold _find_pose_error, sleep.
  apply tracks_bind_emit; [unfold n_tries; lia | reflexivity |].
  apply tracks_bind_emit; [unfold n_tries; lia | reflexivity |].
  apply tracks_bind_ask. intros h.
  apply tracks_bind_lift; [|reflexivity]. intros ja _.
  apply tracks_bind_set_joint_positions; [unfold n_tries; lia|]. intros _.
  apply tracks_bind_emit; [unfold n_tries; lia | reflexivity |].
  eapply tracks_bind; [apply tracks_poll_marker | | intros e c1 H; exact H].
  intros ja' c1 ->.
  apply tracks_bind_ask. intros h'.
  destruct (marker_data rb h') as [d|]; [|apply tracks_ret; reflexivity].
  apply tracks_bind_lift; [|reflexivity]. intros [[cx cy] cz] _.
  destruct (lookupTransform _ _ _) as [[[mx my] mz]|].
  - apply tracks_ret. reflexivity.
  - apply tracks_raise. reflexivity.
Qed.

(** Over a whole run of [grasp] the monitor accepts the trace, and it ends
    in state [n_tries] only when [grasp] returns [False]. *)
Lemma tracks_grasp (rb : Robot) (grasp_pose : list R) :
  tracks O (grasp rb grasp_pose) (fun r c => c = n_tries -> r = Ok false).
Proof.
  unfold grasp, sleep.
  apply tracks_bind_lift; [|discriminate]. intros g0 _.
  apply tracks_bind_lift; [|discriminate]. intros g1 _.
  apply tracks_bind_lift; [|discriminate]. intros grasp_angle _.
  apply tracks_bind_set_pose; cbn [negb]; [|apply tracks_ret; reflexivity].
  apply tracks_bind_emit; [unfold n_tries; lia | reflexivity |].
  eapply tracks_bind; [apply tracks_find_pose_error | | intros e c1 ->; discriminate].
  intros [delta_x delta_y] c1 ->.
  apply tracks_bind_lift; [|discriminate]. intros gp1 _.
  apply tracks_bind_lift; [|discriminate]. intros gp2 _.
  apply tracks_bind_lift; [|discriminate]. intros g0' _.
  apply tracks_bind_lift; [|discriminate]. intros g1' _.
  apply tracks_bind_set_pose; cbn [negb]; [|apply tracks_ret; reflexivity].
  apply tracks_bind_emit; [unfold n_tries; lia | reflexivity |].
  apply tracks_bind_set_pose; cbn [negb]; [|apply tracks_ret; reflexivity].
  apply tracks_bind_emit; [unfold n_tries; lia | reflexivity |].
  apply tracks_bind_emit; [unfold n_tries; lia | reflexivity |].
  apply tracks_bind_emit; [unfold n_tries; lia | reflexivity |].
  apply tracks_bind_set_pose; cbn [negb]; [|apply tracks_ret; reflexivity].
  apply tracks_bind_emit; [unfold n_tries; lia | reflexivity |].
  apply tracks_ret. discriminate.
Qed.

(** C8.  In every run of [grasp], whatever the collaborators answer: if the
    commands issued by the run contain [n_tries] = 5 failed pose commands in
    a row (a stage whose [set_pose] used up its retries), then nothing was
    issued after them, be it a pose command, a calibration command, a sleep
    or a gripper command, and [grasp] returned [False]. *)
Theorem grasp_halts_after_exhausted_retries (rb : Robot) (grasp_pose : list R)
    (h : history) (r : result bool) (pre fails post : list event) :
  grasp rb grasp_pose h = (r, h ++ pre ++ fails ++ post) ->
  length fails = n_tries ->
  Forall (fun e => pose_command_failed e = true) fails ->
  post = [] /\ r = Ok false.
Proof.
  intros Hg Hl Hf.
  destruct (tracks_grasp rb grasp_pose h) as (r' & t & c & Eg & Es & Hp).
  rewrite Eg in Hg. inversion Hg as [[Hr Ht]]. apply app_inv_head in Ht.
  destruct (scan_accepts t pre fails post O c Es Ht Hl Hf) as [-> ->].
  split; [reflexivity|]. subst r'. now apply Hp.
Qed.

Lemma grasp_halts_after_exhausted_retries_witness :
  snd (grasp rb_stuck [1; 0; 0] []) =
    repeat (ArmSetEEPosePitchRoll [1; 0; pregrasp_height] DEFAULT_PITCH 0 false) 5 /\
  fst (grasp rb_stuck [1; 0; 0] []) = Ok false.
Proof.
  split; [run_robot; reflexivity|].
  refine (proj2 (grasp_halts_after_exhausted_retries rb_stuck [1; 0; 0] []
                   (fst (grasp rb_stuck [1; 0; 0] [])) []
                   (repeat (ArmSetEEPosePitchRoll [1; 0; pregrasp_height]
                              DEFAULT_PITCH 0 false) 5)
                   [] _ eq_refl _)).
  - run_robot. reflexivity.
  - repeat constructor.
Defined.

End Stages.

(** * Further properties of the depth pipeline *)

Section DepthMore.
Local Open Scope Q_scope.

Lemma clip_depth_idempotent (d : Q) : clip_depth (clip_depth d) = clip_depth d.
Proof.
  unfold clip_depth. destruct (Qgtb d MAX_DEPTH) eqn:E.
  - reflexivity.
  - now rewrite E.
Qed.

Lemma clip_depth_le (d : Q) : clip_depth d <= MAX_DEPTH.
Proof.
  unfold clip_depth. destruct (Qgtb d MAX_DEPTH) eqn:E.
  - unfold MAX_DEPTH. lra.
  - now apply Qgtb_false.
Qed.

Lemma depth_at_process_depth_le (depth : depth_map) (r c : Z) (v : Q) :
  depth_at (_process_depth depth) r c = Some v -> v <= MAX_DEPTH.
Proof.
  rewrite depth_at_process_depth.
  destruct (depth_at depth r c) as [d|]; [|discriminate].
  simpl. intros H. inversion H. apply clip_depth_le.
Qed.

(** X1.  The max-depth filter leaves no sample above 3.0 m, keeps the shape
    of the map and the set of readable indices, and filtering twice is
    filtering once. *)
Theorem process_depth_filter (depth : depth_map) :
  _process_depth (_process_depth depth) = _process_depth depth /\
  (forall r c v, depth_at (_process_depth depth) r c = Some v -> v <= MAX_DEPTH) /\
  (forall h w, has_shape depth h w -> has_shape (_process_depth depth) h w) /\
  (forall r c, depth_at (_process_depth depth) r c = None <-> depth_at depth r c = None).
Proof.
  split; [|split; [|split]].
  - unfold _process_depth. rewrite map_map. apply map_ext. intros row.
    rewrite map_map. apply map_ext. apply clip_depth_idempotent.
  - apply depth_at_process_depth_le.
  - intros h w [Hh Hw]. unfold has_shape, _process_depth. split.
    + now rewrite length_map.
    + apply Forall_map. eapply Forall_impl; [|exact Hw].
      intros row Hrow. now rewrite length_map.
  - intros r c. rewrite depth_at_process_depth.
    destruct (depth_at depth r c); simpl; split; congruence.
Qed.

(** X2.  [_get_z_mean] keeps 0.0 for "no depth": it returns exactly 0 when
    no index pair of the neighbourhood reads a sample above 0.1 m, and a
    positive mean as soon as one does, for any depth map, pixel and
    half-width. *)
Theorem z_mean_sentinel (depth : depth_map) (pt : Q * Q) (bb : Z) :
  ((exists r c d, In (r, c) (sampled_indices pt bb) /\
                  depth_at depth r c = Some d /\ MIN_DEPTH < d) ->
   0 < _get_z_mean depth pt bb) /\
  ((forall r c d, In (r, c) (sampled_indices pt bb) ->
                  depth_at depth r c = Some d -> d <= MIN_DEPTH) ->
   _get_z_mean depth pt bb = 0).
Proof.
  split.
  - intros (r & c & d & Hin & Hd & Hv). unfold _get_z_mean, z_acc.
    set (l := sampled_indices pt bb) in *.
    assert (H0 : 0 <= fst (0%Q, O)) by (cbn [fst]; lra).
    assert (H1 : (0 < snd (0%Q, O))%nat -> 0 < fst (0%Q, O)) by (cbn [snd]; lia).
    destruct (z_fold_invariant depth l (0%Q, O) H0 H1) as (_ & Hpos & _).
    assert (Hn : (0 < snd (fold_left (z_step depth) l (0%Q, O)))%nat).
    { apply (z_fold_counts depth l (0%Q, O) (r, c) d H0 H1 Hin Hd).
      now apply Qgtb_true. }
    destruct (fold_left (z_step depth) l (0%Q, O)) as [sum_z nps].
    cbn [fst snd] in Hpos, Hn.
    destruct (Nat.eqb_spec nps 0) as [->|_]; [lia|].
    apply Qlt_shift_div_l.
    + unfold Qlt. simpl. lia.
    + specialize (Hpos Hn). lra.
  - intros Hno. unfold _get_z_mean, z_acc. rewrite z_fold_skips; [reflexivity|].
    intros [r c] new_z Hin Hd. apply Qgtb_false. exact (Hno r c new_z Hin Hd).
Qed.

End DepthMore.

Section LocalizeMore.
Local Open Scope Q_scope.

(** X6.  [get_3D] returns a point exactly when localization returns one,
    the listener transforms it, and the lookup made for the log line
    succeeds as well; an error of localization is passed on unchanged. *)
Theorem get_3D_outcome (tl : TransformListener xpoint) (depth : depth_map)
    (P : mat34) (pt : Q * Q) (z_norm : option Q) :
  (forall p,
     get_3D tl depth P pt z_norm = Ok p <->
     exists q, _get_3D_camera depth P pt z_norm = Ok q /\
               transformPoint tl BASE_FRAME KINECT_FRAME q = Some p /\
               lookupTransform tl BASE_FRAME KINECT_FRAME <> None) /\
  (forall e, _get_3D_camera depth P pt z_norm = Raise e ->
             get_3D tl depth P pt z_norm = Raise e) /\
  (forall q, _get_3D_camera depth P pt z_norm = Ok q ->
             lookupTransform tl BASE_FRAME KINECT_FRAME = None ->
             get_3D tl depth P pt z_norm = Raise TfError).
Proof.
  unfold get_3D, _convert_frames. split; [|split].
  - intros p. destruct (_get_3D_camera depth P pt z_norm) as [q|e].
    + destruct (transformPoint tl BASE_FRAME KINECT_FRAME q) as [b|] eqn:Et;
        destruct (lookupTransform tl BASE_FRAME KINECT_FRAME) as [t|] eqn:El; split;
        try discriminate.
      * intros H. inversion H; subst. exists q. repeat split; congruence.
      * intros (q' & Hq & Hp & _). inversion Hq; subst q'. congruence.
      * intros (q' & _ & _ & Hn). congruence.
      * intros (q' & Hq & Hp & _). inversion Hq; subst q'. congruence.
      * intros (q' & _ & _ & Hn). congruence.
    + split; [discriminate|]. intros (q & Hq & _). discriminate.
  - intros e ->. reflexivity.
  - intros q -> ->. destruct (transformPoint tl BASE_FRAME KINECT_FRAME q); reflexivity.
Qed.

(** X7.  [compute_grasp] returns only for a prediction of at least three
    entries, and then the list keeps its length: two new leading entries,
    every later entry as predicted. *)
Theorem compute_grasp_shape (tl : TransformListener xpoint) (depth : depth_map)
    (P : mat34) (predicted : list Q) (dims : (Z * Z) * (Z * Z)) (g : list xnum) :
  compute_grasp tl depth P predicted dims = Ok g ->
  (3 <= length predicted)%nat /\
  length g = length predicted /\
  skipn 2 g = map Fin (skipn 2 predicted).
Proof.
  unfold compute_grasp.
  destruct predicted as [|g0 [|g1 rest]]; try discriminate.
  destruct (get_3D tl depth P _ None) as [[[x y] z]|e]; [|discriminate].
  destruct rest as [|angle rest]; [discriminate|].
  cbn [map nth_error]. intros H. inversion H; subst g.
  cbn [length skipn map]. rewrite length_map. repeat split. lia.
Qed.

Lemma compute_grasp_shape_witness :
  exists g,
    compute_grasp tl_identity (single_sample 12 12 5 5 (1 # 2)) P_ideal
      [5; 5; 0; 7] ((0, 12), (0, 12))%Z = Ok g /\
    length g = 4%nat /\ skipn 2 g = [Fin 0; Fin 7].
Proof.
  assert (E : exists g, compute_grasp tl_identity (single_sample 12 12 5 5 (1 # 2))
                          P_ideal [5; 5; 0; 7] ((0, 12), (0, 12))%Z = Ok g).
  { eexists. vm_compute. reflexivity. }
  destruct E as [g E]. exists g. split; [exact E|].
  destruct (compute_grasp_shape _ _ _ _ _ _ E) as (_ & Hl & Hs).
  split; [exact Hl | exact Hs].
Defined.

End LocalizeMore.

(** * Further properties of the motion part *)

Section Lists.

Lemma setitem_ok {A : Type} (l : list A) (i : nat) (v : A) :
  (i < length l)%nat ->
  setitem l i v = Ok (firstn i l ++ v :: skipn (S i) l).
Proof.
  revert i. induction l as [|a l IH]; intros i Hi; cbn [length] in Hi; [lia|].
  destruct i as [|i]; [reflexivity|].
  cbn [setitem]. rewrite IH by lia. reflexivity.
Qed.

Lemma setitem_raise {A : Type} (l : list A) (i : nat) (v : A) :
  (length l <= i)%nat -> setitem l i v = Raise IndexError.
Proof.
  revert i. induction l as [|a l IH]; intros i Hi; [reflexivity|].
  cbn [length] in Hi. destruct i as [|i]; [lia|].
  cbn [setitem]. rewrite IH by lia. reflexivity.
Qed.

End Lists.

Section Retry.
Local Open Scope R_scope.

Lemma set_pose_loop_trace (rb : Robot) (position : list R) (pitch roll : R)
    (n : nat) (h : history) :
  (n = O /\ set_pose_loop rb n position pitch roll false h = (Ok false, h)) \/
  exists failed success,
    (failed < n)%nat /\ (success = false -> S failed = n) /\
    set_pose_loop rb n position pitch roll false h =
      (Ok success,
       h ++ repeat (ArmSetEEPosePitchRoll position pitch roll false) failed
         ++ [ArmSetEEPosePitchRoll position pitch roll success]).
Proof.
  revert h. induction n as [|n IH]; intros h; [left; auto|]. right.
  cbn [set_pose_loop]. unfold bind, set_ee_pose_pitch_roll.
  destruct (arm_set_ee_pose_pitch_roll rb h position pitch roll) eqn:E.
  - exists O, true. split; [lia|]. split; [discriminate|]. reflexivity.
  - set (h1 := h ++ [ArmSetEEPosePitchRoll position pitch roll false]).
    destruct (IH h1) as [[-> Hl] | (failed & success & Hlt & Hs & Hl)].
    + exists O, false. split; [lia|]. split; [reflexivity|].
      rewrite Hl. reflexivity.
    + exists (S failed), success. split; [lia|].
      split; [intros Hf; now rewrite Hs|].
      rewrite Hl. unfold h1. rewrite <- app_assoc. reflexivity.
Qed.

Lemma refused_shift (e : event) (h x : history) (i : nat) :
  ((h ++ [e]) ++ repeat e i ++ x = h ++ repeat e (S i) ++ x)%list.
Proof.
  cbn [repeat]. now rewrite <- app_assoc.
Qed.

(** The retry loop of [set_pose] with the driver's answers. *)
Lemma set_pose_loop_answers (rb : Robot) (position : list R) (pitch roll : R)
    (n : nat) (h : history) :
  (n = O /\ set_pose_loop rb n position pitch roll false h = (Ok false, h)) \/
  exists failed success,
    (failed < n)%nat /\
    (forall i, (i < failed)%nat ->
       arm_set_ee_pose_pitch_roll rb
         (h ++ repeat (ArmSetEEPosePitchRoll position pitch roll false) i)
         position pitch roll = false) /\
    arm_set_ee_pose_pitch_roll rb
      (h ++ repeat (ArmSetEEPosePitchRoll position pitch roll false) failed)
      position pitch roll = success /\
    (success = false -> S failed = n) /\
    set_pose_loop rb n position pitch roll false h =
      (Ok success,
       h ++ repeat (ArmSetEEPosePitchRoll position pitch roll false) failed
         ++ [ArmSetEEPosePitchRoll position pitch roll success]).
Proof.
  set (e := ArmSetEEPosePitchRoll position pitch roll false).
  revert h. induction n as [|n IH]; intros h; [left; auto|]. right.
  cbn [set_pose_loop]. unfold bind, set_ee_pose_pitch_roll.
  destruct (arm_set_ee_pose_pitch_roll rb h position pitch roll) eqn:E.
  - exists O, true. cbn [repeat app]. rewrite app_nil_r.
    split; [lia|]. split; [intros i Hi; lia|].
    split; [exact E|]. split; [discriminate|]. reflexivity.
  - fold e. destruct (IH (h ++ [e]))
      as [[-> Hl] | (failed & success & Hlt & Ha & Hsucc & Hs & Hl)].
    + exists O, false. cbn [repeat app]. rewrite app_nil_r.
      split; [lia|]. split; [intros i Hi; lia|].
      split; [exact E|]. split; [reflexivity|].
      rewrite Hl. reflexivity.
    + exists (S failed), success. split; [lia|].
      split; [|split; [|split]].
      * intros [|i] Hi; [cbn [repeat]; rewrite app_nil_r; exact E|].
        pose proof (refused_shift e h [] i) as Es. rewrite !app_nil_r in Es.
        rewrite <- Es. apply Ha. lia.
      * pose proof (refused_shift e h [] failed) as Es. rewrite !app_nil_r in Es.
        rewrite <- Es. exact Hsucc.
      * intros Hf. now rewrite Hs.
      * rewrite Hl. now rewrite refused_shift.
Qed.

(** X8.  [set_pose] sends the same pose command at most [n_tries] = 5 times
    and stops at the first success: the arm driver refused each of the first
    [failed] commands, the command after them is the last, and the driver's
    answer to it is the value returned; a refused last command is the
    fifth.  Each answer is the driver's answer at the history at which the
    command was sent. *)
Theorem set_pose_outcome (rb : Robot) (position : list R) (pitch roll : R)
    (h : history) :
  exists failed success,
    (S failed <= n_tries)%nat /\
    (forall i, (i < failed)%nat ->
       arm_set_ee_pose_pitch_roll rb
         (h ++ repeat (ArmSetEEPosePitchRoll position pitch roll false) i)
         position pitch roll = false) /\
    arm_set_ee_pose_pitch_roll rb
      (h ++ repeat (ArmSetEEPosePitchRoll position pitch roll false) failed)
      position pitch roll = success /\
    (success = false -> S failed = n_tries) /\
    set_pose rb position pitch roll h =
      (Ok success,
       h ++ repeat (ArmSetEEPosePitchRoll position pitch roll false) failed
         ++ [ArmSetEEPosePitchRoll position pitch roll success]).
Proof.
  unfold set_pose.
  destruct (set_pose_loop_answers rb position pitch roll n_tries h)
    as [[Hn _] | (failed & success & Hlt & Ha & Hsucc & Hs & Hl)]; [discriminate|].
  exists failed, success. split; [lia|]. split; [exact Ha|].
  split; [exact Hsucc|]. split; [exact Hs | exact Hl].
Qed.

End Retry.

Section PollingMore.
Local Open Scope R_scope.

Lemma poll_marker_stops (rb : Robot) (n : nat) (joint_angles : list R)
    (h : history) :
  marker_not_visible (marker_data rb h) (time_now_secs rb h) = false ->
  poll_marker rb (S n) joint_angles h = (Ok joint_angles, h).
Proof.
  intros Hv. cbn [poll_marker]. unfold bind, ask. now rewrite Hv.
Qed.

Lemma poll_rounds_shape (rb : Robot) (rest : list R) (k : nat) (h : history)
    (j0 : R) :
  length (poll_rounds rb h j0 rest k) = (2 * k)%nat /\
  Forall (polling_command rest) (poll_rounds rb h j0 rest k) /\
  (forall i, (i < k)%nat ->
     exists b,
       nth_error (poll_rounds rb h j0 rest k) (2 * i)
       = Some (ArmSetJointPositions (Nat.iter (S i) nudge j0 :: rest) None b) /\
       nth_error (poll_rounds rb h j0 rest k) (2 * i + 1) = Some (Sleep _sleep_time)).
Proof.
  revert h j0. induction k as [|k IH]; intros h j0.
  - split; [reflexivity|]. split; [constructor|]. intros i Hi. lia.
  - cbn [poll_rounds]. set (round := [_; _]).
    destruct (IH (h ++ round) (nudge j0)) as (Hl & Hf & Hn).
    subst round. split; [|split].
    + rewrite length_app, Hl. cbn [length]. lia.
    + apply Forall_app. split; [|exact Hf]. repeat constructor.
    + intros [|i] Hi.
      * eexists. split; reflexivity.
      * destruct (Hn i) as (b & H0 & H1); [lia|]. exists b.
        replace (2 * S i)%nat with (S (S (2 * i))) by lia.
        replace (S (S (2 * i)) + 1)%nat with (S (S (2 * i + 1))) by lia.
        cbn [app nth_error]. rewrite H0, H1.
        rewrite <- Nat.iter_succ_r. split; reflexivity.
Qed.

(** X9.  The polling loop runs [k <= n] rounds and appends exactly
    [poll_rounds]: round [i + 1] is the joint command whose base joint has
    been nudged [i + 1] times and whose other joints are as given, with the
    driver's answer, followed by one settle sleep.  The marker was not
    visible at the start of each of these rounds; when the loop stops
    before round [n] the marker is visible at that moment.  The loop
    answers the angles with the base joint nudged [k] times. *)
Theorem poll_marker_outcome (rb : Robot) (n : nat) (j0 : R) (rest : list R)
    (h : history) :
  exists k,
    (k <= n)%nat /\
    poll_marker rb n (j0 :: rest) h
    = (Ok (Nat.iter k nudge j0 :: rest), h ++ poll_rounds rb h j0 rest k) /\
    (forall i, (i < k)%nat ->
       marker_not_visible (marker_data rb (h ++ poll_rounds rb h j0 rest i))
         (time_now_secs rb (h ++ poll_rounds rb h j0 rest i)) = true) /\
    ((k < n)%nat ->
     marker_not_visible (marker_data rb (h ++ poll_rounds rb h j0 rest k))
       (time_now_secs rb (h ++ poll_rounds rb h j0 rest k)) = false) /\
    length (poll_rounds rb h j0 rest k) = (2 * k)%nat /\
    Forall (polling_command rest) (poll_rounds rb h j0 rest k) /\
    (forall i, (i < k)%nat ->
       exists b,
         nth_error (poll_rounds rb h j0 rest k) (2 * i)
         = Some (ArmSetJointPositions (Nat.iter (S i) nudge j0 :: rest) None b) /\
         nth_error (poll_rounds rb h j0 rest k) (2 * i + 1)
         = Some (Sleep _sleep_time)).
Proof.
  assert (G : exists k,
    (k <= n)%nat /\
    poll_marker rb n (j0 :: rest) h
    = (Ok (Nat.iter k nudge j0 :: rest), h ++ poll_rounds rb h j0 rest k) /\
    (forall i, (i < k)%nat ->
       marker_not_visible (marker_data rb (h ++ poll_rounds rb h j0 rest i))
         (time_now_secs rb (h ++ poll_rounds rb h j0 rest i)) = true) /\
    ((k < n)%nat ->
     marker_not_visible (marker_data rb (h ++ poll_rounds rb h j0 rest k))
       (time_now_secs rb (h ++ poll_rounds rb h j0 rest k)) = false)).
  { revert j0 h. induction n as [|n IH]; intros j0 h.
    - exists O. cbn [poll_rounds]. rewrite app_nil_r.
      split; [lia|]. split; [reflexivity|]. split; intros; lia.
    - destruct (marker_not_visible (marker_data rb h) (time_now_secs rb h)) eqn:Hv.
      + rewrite (poll_marker_round rb n j0 rest h Hv).
        set (round := [_; _]).
        destruct (IH (nudge j0) (h ++ round)) as (k & Hk & Hp & Hn & Hs).
        exists (S k). split; [lia|]. cbn [poll_rounds]. fold round.
        rewrite !app_assoc. split; [|split].
        * rewrite Hp. rewrite Nat.iter_succ_r. reflexivity.
        * intros [|i] Hi.
          -- cbn [poll_rounds]. rewrite app_nil_r. exact Hv.
          -- cbn [poll_rounds]. fold round. rewrite app_assoc. apply Hn. lia.
        * intros Hlt. apply Hs. lia.
      + exists O. cbn [poll_rounds]. rewrite app_nil_r.
        rewrite (poll_marker_stops rb n _ h Hv).
        split; [lia|]. split; [reflexivity|]. split; [intros; lia|].
        intros _. exact Hv. }
  destruct G as (k & Hk & Hp & Hn & Hs). exists k.
  destruct (poll_rounds_shape rb rest k h j0) as (Hl & Hf & Hnth).
  repeat (split; [assumption|]). assumption.
Qed.

(** X10.  With at least four joints reported and a marker that is visible
    once the wrist has turned, [_find_pose_error] sends four commands (camera
    pan and tilt, settle sleep, the joint command that sets joint 3 to
    [-(j1 + j2) + pregrasp_pitch], a double settle sleep), does not nudge the
    base, and answers the kinematic position of the marker minus the
    observed one, in x and y. *)
Theorem find_pose_error_fresh (rb : Robot) (h : history) (d : Marker)
    (cam model : point3) :
  let h2 := h ++ [CameraSetPanTilt 0.0 0.5; Sleep _sleep_time] in
  let ja := arm_get_joint_angles rb h2 in
  let ja' := firstn 3 ja ++ (- py_sum (slice ja 1 3) + pregrasp_pitch) :: skipn 4 ja in
  let h4 := h2 ++ [ArmSetJointPositions ja' None (arm_set_joint_positions rb h2 ja' None);
                   Sleep (2 * _sleep_time)] in
  (3 < length ja)%nat ->
  marker_data rb h4 = Some d ->
  (time_now_secs rb h4 - stamp_secs d <= 1)%Z ->
  transformPoint (transform_listener rb h4) BASE_FRAME KINECT_FRAME (pose_position d)
    = Some cam ->
  lookupTransform (transform_listener rb h4) BASE_FRAME KINECT_FRAME <> None ->
  lookupTransform (transform_listener rb h4) BASE_FRAME "ar_tag" = Some model ->
  _find_pose_error rb h =
    (Ok (fst (fst model) - fst (fst cam), snd (fst model) - snd (fst cam)), h4).
Proof.
  intros h2 ja ja' h4 Hlen Hm Hage Ht Hl Ha.
  unfold _find_pose_error.
  unfold bind at 1. unfold emit at 1.
  unfold bind at 1. unfold sleep at 1, emit at 1.
  unfold bind at 1. unfold ask at 1.
  unfold bind at 1. unfold lift at 1.
  assert (Eh2 : (h ++ [CameraSetPanTilt 0.0 0.5]) ++ [Sleep _sleep_time] = h2).
  { unfold h2. now rewrite <- app_assoc. }
  rewrite Eh2. fold ja. rewrite (setitem_ok ja 3 _ Hlen). fold ja'.
  unfold bind at 1. unfold set_joint_positions at 1.
  unfold bind at 1. unfold sleep at 1, emit at 1.
  assert (Eh4 : (h2 ++ [ArmSetJointPositions ja' None (arm_set_joint_positions rb h2 ja' None)])
                  ++ [Sleep (2 * _sleep_time)] = h4).
  { unfold h4. now rewrite <- app_assoc. }
  rewrite Eh4.
  assert (Hv : marker_not_visible (marker_data rb h4) (time_now_secs rb h4) = false).
  { rewrite Hm. unfold marker_not_visible. apply Z.ltb_ge. lia. }
  unfold bind at 1. rewrite (poll_marker_stops rb 4 ja' h4 Hv).
  unfold bind at 1. unfold ask at 1. rewrite Hm.
  unfold bind at 1. unfold lift at 1, _convert_frames. rewrite Ht.
  destruct (lookupTransform (transform_listener rb h4) BASE_FRAME KINECT_FRAME);
    [|contradiction].
  rewrite Ha. destruct model as [[mx my] mz]. destruct cam as [[cx cy] cz].
  reflexivity.
Qed.

Lemma find_pose_error_fresh_witness :
  exists t,
    _find_pose_error rb_fresh [] = (Ok (1 - 0.5, 2 - 0), t) /\ length t = 4%nat.
Proof.
  eexists. split.
  - apply (find_pose_error_fresh rb_fresh []
             {| stamp_secs := 10; pose_position := (0.5, 0, 0) |} (0.5, 0, 0) (1, 2, 3)).
    + cbn. lia.
    + reflexivity.
    + cbn. lia.
    + reflexivity.
    + discriminate.
    + reflexivity.
  - reflexivity.
Defined.

(** X11.  When the arm reports fewer than four joints, [_find_pose_error]
    raises [IndexError] after the camera command and the settle sleep,
    before any arm command. *)
Theorem find_pose_error_short_joints (rb : Robot) (h : history) :
  let h2 := h ++ [CameraSetPanTilt 0.0 0.5; Sleep _sleep_time] in
  (length (arm_get_joint_angles rb h2) <= 3)%nat ->
  _find_pose_error rb h = (Raise IndexError, h2).
Proof.
  intros h2 Hlen. unfold _find_pose_error.
  unfold bind at 1. unfold emit at 1.
  unfold bind at 1. unfold sleep at 1, emit at 1.
  unfold bind at 1. unfold ask at 1.
  unfold bind at 1. unfold lift at 1.
  assert (Eh2 : (h ++ [CameraSetPanTilt 0.0 0.5]) ++ [Sleep _sleep_time] = h2).
  { unfold h2. now rewrite <- app_assoc. }
  rewrite Eh2. rewrite (setitem_raise _ 3 _ Hlen). reflexivity.
Qed.

Lemma find_pose_error_short_joints_witness :
  _find_pose_error rb_three_joints [] =
    (Raise IndexError, [CameraSetPanTilt 0.0 0.5; Sleep _sleep_time]).
Proof.
  apply (find_pose_error_short_joints rb_three_joints []). cbn. lia.
Defined.

End PollingMore.

Section Runs.
Local Open Scope R_scope.

Lemma ew_weaken {A : Type} (n n' : nat) (Q : event -> Prop) (m : M A) :
  (n <= n')%nat -> emits_within n Q m -> emits_within n' Q m.
Proof.
  intros Hn Hm h. destruct (Hm h) as (r & t & E & Hf & Hl).
  exists r, t. repeat split; auto. lia.
Qed.

Lemma ew_ret {A : Type} (n : nat) (Q : event -> Prop) (a : A) :
  emits_within n Q (ret a).
Proof.
  intros h. exists (Ok a), []. rewrite app_nil_r.
  repeat split; [constructor | cbn; lia].
Qed.

Lemma ew_raise {A : Type} (n : nat) (Q : event -> Prop) (e : exn) :
  emits_within n Q (raise e : M A).
Proof.
  intros h. exists (Raise e), []. rewrite app_nil_r.
  repeat split; [constructor | cbn; lia].
Qed.

Lemma ew_bind {A B : Type} (n1 n2 : nat) (Q : event -> Prop) (m : M A)
    (k : A -> M B) :
  emits_within n1 Q m -> (forall a, emits_within n2 Q (k a)) ->
  emits_within (n1 + n2) Q (bind m k).
Proof.
  intros Hm Hk h. destruct (Hm h) as (r1 & t1 & E1 & Hf1 & Hl1).
  unfold bind. rewrite E1. destruct r1 as [a|e].
  - destruct (Hk a (h ++ t1)) as (r2 & t2 & E2 & Hf2 & Hl2).
    exists r2, (t1 ++ t2). rewrite E2, app_assoc.
    repeat split; [now apply Forall_app | rewrite length_app; lia].
  - exists (Raise e), t1. repeat split; auto. lia.
Qed.

Lemma ew_bind_lift {A B : Type} (n : nat) (Q : event -> Prop) (r : result A)
    (k : A -> M B) :
  (forall a, emits_within n Q (k a)) -> emits_within n Q (bind (lift r) k).
Proof.
  intros Hk h. unfold bind, lift. destruct r as [a|e]; [apply Hk|].
  exists (Raise e), []. rewrite app_nil_r. repeat split; [constructor | cbn; lia].
Qed.

Lemma ew_bind_ask {B : Type} (n : nat) (Q : event -> Prop) (k : history -> M B) :
  (forall h, emits_within n Q (k h)) -> emits_within n Q (bind ask k).
Proof.
  intros Hk h. unfold bind, ask. apply Hk.
Qed.

Lemma ew_bind_emit {B : Type} (n : nat) (Q : event -> Prop) (e : event)
    (k : unit -> M B) :
  Q e -> emits_within n Q (k tt) -> emits_within (S n) Q (bind (emit e) k).
Proof.
  intros He Hk. apply (ew_bind 1 n); [|intros []; exact Hk].
  intros h. exists (Ok tt), [e]. repeat split; [now constructor | cbn; lia].
Qed.

Lemma ew_bind_set_joint_positions {B : Type} (n : nat) (Q : event -> Prop)
    (rb : Robot) (positions : list R) (plan : option bool) (k : bool -> M B) :
  (forall b, Q (ArmSetJointPositions positions plan b)) ->
  (forall b, emits_within n Q (k b)) ->
  emits_within (S n) Q (bind (set_joint_positions rb positions plan) k).
Proof.
  intros He Hk. apply (ew_bind 1 n); [|exact Hk].
  intros h. eexists _, [_]. unfold set_joint_positions.
  repeat split; [now constructor | cbn; lia].
Qed.

Lemma ew_set_pose (Q : event -> Prop) (rb : Robot) (position : list R)
    (pitch roll : R) :
  (forall b, Q (ArmSetEEPosePitchRoll position pitch roll b)) ->
  emits_within n_tries Q (set_pose rb position pitch roll).
Proof.
  intros He h. unfold set_pose.
  destruct (set_pose_loop_trace rb position pitch roll n_tries h)
    as [[Hn _] | (failed & success & Hlt & Hs & Hl)]; [discriminate|].
  rewrite Hl. eexists _, _. split; [reflexivity|]. split.
  - apply Forall_app. split; [|now constructor].
    apply Forall_forall. intros e Hin. apply repeat_spec in Hin. subst e. apply He.
  - rewrite length_app, repeat_length. cbn. lia.
Qed.

Lemma ew_poll_marker (rb : Robot) (n : nat) (joint_angles : list R) :
  emits_within (2 * n) calibration_command (poll_marker rb n joint_angles).
Proof.
  revert joint_angles. induction n as [|n IH]; intros joint_angles.
  - apply ew_ret.
  - cbn [poll_marker]. apply ew_bind_ask. intros h.
    destruct (marker_not_visible _ _); [|apply ew_ret].
    apply ew_bind_lift. intros ja.
    apply (ew_weaken (S (S (2 * n)))); [lia|].
    apply ew_bind_set_joint_positions; [now intros|]. intros _.
    apply ew_bind_emit; [exact I|]. apply IH.
Qed.

Lemma ew_find_pose_error (rb : Robot) :
  emits_within 14 calibration_command (_find_pose_error rb).
Proof.
  unfold _find_pose_error, sleep.
  apply ew_bind_emit; [exact I|].
  apply ew_bind_emit; [exact I|].
  apply ew_bind_ask. intros h.
  apply ew_bind_lift. intros ja.
  apply ew_bind_set_joint_positions; [now intros|]. intros _.
  apply ew_bind_emit; [exact I|].
  apply (ew_bind (2 * 5) 0); [apply ew_poll_marker|]. intros ja'.
  apply ew_bind_ask. intros h'.
  destruct (marker_data rb h'); [|apply ew_ret].
  apply ew_bind_lift. intros [[cx cy] cz].
  destruct (lookupTransform _ _ _) as [[[mx my] mz]|]; [apply ew_ret | apply ew_raise].
Qed.

(** X12.  The calibration step sends at most 14 commands, all of them camera
    pan and tilt, sleeps or joint commands: it never sends a pose command and
    never touches the gripper. *)
Theorem find_pose_error_commands (rb : Robot) (h : history) :
  exists r t,
    _find_pose_error rb h = (r, h ++ t) /\
    Forall calibration_command t /\ (length t <= 14)%nat.
Proof.
  exact (ew_find_pose_error rb h).
Qed.

Lemma grasp_command_of_calibration (grasp_pose : list R) (e : event) :
  calibration_command e -> grasp_command grasp_pose e.
Proof.
  destruct e; cbn; tauto.
Qed.

Lemma ew_grasp (rb : Robot) (grasp_pose : list R) :
  emits_within 40 (grasp_command grasp_pose) (grasp rb grasp_pose).
Proof.
  unfold grasp, sleep.
  apply ew_bind_lift. intros g0.
  apply ew_bind_lift. intros g1.
  unfold lift at 1. unfold bind at 1.
  destruct (get_grasp_angle grasp_pose) as [grasp_angle|e] eqn:Ea.
  2:{ intros h. exists (Raise e), []. rewrite app_nil_r.
      repeat split; [constructor | cbn; lia]. }
  apply (ew_bind 5 35).
  { apply ew_set_pose. intros b. cbn. repeat split; eauto. }
  intros [|]; cbn [negb]; [|apply ew_ret].
  apply ew_bind_emit; [exact I|].
  apply (ew_bind 14 20).
  { intros h. destruct (ew_find_pose_error rb h) as (r & t & E & Hf & Hl).
    exists r, t. repeat split; auto.
    eapply Forall_impl; [|exact Hf]. apply grasp_command_of_calibration. }
  intros [delta_x delta_y].
  apply ew_bind_lift. intros gp1.
  apply ew_bind_lift. intros gp2.
  apply ew_bind_lift. intros g0'.
  apply ew_bind_lift. intros g1'.
  apply (ew_bind 5 15).
  { apply ew_set_pose. intros b. cbn. repeat split; eauto. }
  intros [|]; cbn [negb]; [|apply ew_ret].
  apply ew_bind_emit; [exact I|].
  apply (ew_bind 5 9).
  { apply ew_set_pose. intros b. cbn. repeat split; eauto. }
  intros [|]; cbn [negb]; [|apply ew_ret].
  apply ew_bind_emit; [exact I|].
  apply ew_bind_emit; [exact I|].
  apply ew_bind_emit; [exact I|].
  apply (ew_bind 5 1).
  { apply ew_set_pose. intros b. cbn. repeat split; eauto. }
  intros [|]; cbn [negb]; [|apply ew_ret].
  apply ew_bind_emit; [exact I|].
  apply ew_ret.
Qed.

(** X13.  A run of [grasp] sends at most 40 commands.  Every pose command
    among them is at the default pitch, at the pregrasp height or the grasp
    height, and with roll 0 or the grasp angle computed from the pose as it
    was passed in, before the calibration correction. *)
Theorem grasp_commands (rb : Robot) (grasp_pose : list R) (h : history) :
  exists r t,
    grasp rb grasp_pose h = (r, h ++ t) /\
    Forall (grasp_command grasp_pose) t /\ (length t <= 40)%nat.
Proof.
  exact (ew_grasp rb grasp_pose h).
Qed.

End Runs.

Section StageOrder.
Local Open Scope R_scope.

Lemma stage_run_app (s : nat * bool) (t1 t2 : list event) :
  stage_run s (t1 ++ t2) =
  match stage_run s t1 with
  | Some s' => stage_run s' t2
  | None => None
  end.
Proof.
  revert s. induction t1 as [|e t1 IH]; intros s; [reflexivity|].
  cbn [app stage_run]. destruct (stage_step s e); [apply IH | reflexivity].
Qed.

Lemma stage_step_reached (s s' : nat * bool) (e : event) :
  stage_step s e = Some s' ->
  fst s' = (fst s + (if pose_command_reached e then 1 else 0))%nat /\
  (snd s = true -> snd s' = true /\ e <> GripperClose).
Proof.
  destruct s as [k c]. destruct e as [| | position pitch roll [|] | | | | | |];
    cbn [stage_step pose_command_reached fst snd];
    try (intros H; inversion H; subst; cbn [fst snd]; split;
         [lia | intros ->; split; [reflexivity | discriminate]]).
  destruct (Nat.eqb k 3 && negb c) eqn:E; [|discriminate].
  intros H. inversion H; subst. cbn [fst snd]. split; [lia|].
  intros ->. rewrite andb_false_r in E. discriminate.
Qed.

Lemma stage_run_closed (s s' : nat * bool) (t : list event) :
  stage_run s t = Some s' -> snd s = true -> ~ In GripperClose t.
Proof.
  revert s. induction t as [|e t IH]; intros s Hr Hc; [easy|].
  cbn [stage_run] in Hr. destruct (stage_step s e) as [s1|] eqn:E; [|discriminate].
  destruct (stage_step_reached s s1 e E) as [_ Hk].
  destruct (Hk Hc) as [Hc1 He]. intros [Hin | Hin]; [congruence|].
  exact (IH s1 Hr Hc1 Hin).
Qed.

(** What the second monitor's verdict means. *)
Lemma stage_run_sound (s s' : nat * bool) (t : list event) :
  stage_run s t = Some s' ->
  fst s' = (fst s + count_reached t)%nat /\
  (forall pre post, t = pre ++ GripperClose :: post ->
     (fst s + count_reached pre)%nat = 3%nat /\ ~ In GripperClose post).
Proof.
  revert s. induction t as [|e t IH]; intros s Hr.
  - cbn in Hr. inversion Hr; subst. split; [cbn; lia|].
    intros [|? ?] post H; discriminate.
  - cbn [stage_run] in Hr. destruct (stage_step s e) as [s1|] eqn:E; [|discriminate].
    destruct (stage_step_reached s s1 e E) as [Hk _].
    destruct (IH s1 Hr) as [Hc Hg]. unfold count_reached in *. split.
    + cbn [filter]. destruct (pose_command_reached e); cbn [length]; lia.
    + intros [|e' pre] post H; cbn [app] in H; inversion H; subst.
      * destruct s as [k c]. cbn [stage_step fst snd] in E.
        destruct (Nat.eqb_spec k 3) as [->|]; [|discriminate].
        destruct c; [discriminate|]. cbn in E. inversion E; subst s1.
        cbn [filter length fst]. split; [lia|].
        eapply stage_run_closed; [exact Hr | reflexivity].
      * destruct (Hg pre post eq_refl) as [H3 Hn]. split; [|exact Hn].
        cbn [filter]. destruct (pose_command_reached e'); cbn [length]; lia.
Qed.

Lemma stages_bind {A B : Type} (s0 : nat * bool) (m : M A) (k : A -> M B)
    (P1 : result A -> nat * bool -> Prop) (P2 : result B -> nat * bool -> Prop) :
  stages s0 m P1 ->
  (forall a s1, P1 (Ok a) s1 -> stages s1 (k a) P2) ->
  (forall e s1, P1 (Raise e) s1 -> P2 (Raise e) s1) ->
  stages s0 (bind m k) P2.
Proof.
  intros Hm Hk He h. destruct (Hm h) as (r1 & t1 & s1 & Em & Es & Hp).
  unfold bind. rewrite Em. destruct r1 as [a|e].
  - destruct (Hk a s1 Hp (h ++ t1)) as (r2 & t2 & s2 & Ek & Es2 & Hp2).
    exists r2, (t1 ++ t2), s2. rewrite Ek, app_assoc. split; [reflexivity|].
    split; [|exact Hp2]. now rewrite stage_run_app, Es.
  - exists (Raise e), t1, s1. auto.
Qed.

Lemma stages_ret {A : Type} (s0 : nat * bool) (a : A)
    (P : result A -> nat * bool -> Prop) :
  P (Ok a) s0 -> stages s0 (ret a) P.
Proof.
  intros H h. exists (Ok a), [], s0. unfold ret. now rewrite app_nil_r.
Qed.

Lemma stages_bind_lift {A B : Type} (s0 : nat * bool) (r : result A)
    (k : A -> M B) (P : result B -> nat * bool -> Prop) :
  (forall a, stages s0 (k a) P) ->
  (forall e, P (Raise e) s0) ->
  stages s0 (bind (lift r) k) P.
Proof.
  intros Hk He h. unfold bind, lift. destruct r as [a|e]; [apply Hk|].
  exists (Raise e), [], s0. rewrite app_nil_r. auto.
Qed.

Lemma stages_bind_emit {B : Type} (s0 s1 : nat * bool) (e : event)
    (k : unit -> M B) (P : result B -> nat * bool -> Prop) :
  stage_step s0 e = Some s1 ->
  stages s1 (k tt) P ->
  stages s0 (bind (emit e) k) P.
Proof.
  intros He Hk. apply stages_bind with (P1 := fun r s => r = Ok tt /\ s = s1).
  - intros h. exists (Ok tt), [e], s1. unfold emit. split; [reflexivity|].
    split; [|auto]. cbn [stage_run]. now rewrite He.
  - intros [] s [_ ->]. exact Hk.
  - intros e' s [E _]. discriminate.
Qed.

Lemma stage_run_neutral (s : nat * bool) (t : list event) :
  Forall calibration_command t -> stage_run s t = Some s.
Proof.
  induction 1 as [|e t He _ IH]; [reflexivity|].
  cbn [stage_run]. destruct e as [| positions [?|] ? | | | | | | |];
    cbn in He; try contradiction; cbn [stage_step]; exact IH.
Qed.

Lemma stage_run_refused (s : nat * bool) (position : list R) (pitch roll : R)
    (n : nat) :
  stage_run s (repeat (ArmSetEEPosePitchRoll position pitch roll false) n) = Some s.
Proof.
  induction n as [|n IH]; [reflexivity|]. cbn [repeat stage_run stage_step]. exact IH.
Qed.

Lemma stages_bind_set_pose {B : Type} (s0 : nat * bool) (rb : Robot)
    (position : list R) (pitch roll : R) (k : bool -> M B)
    (P : result B -> nat * bool -> Prop) :
  stages (S (fst s0), snd s0) (k true) P ->
  stages s0 (k false) P ->
  stages s0 (bind (set_pose rb position pitch roll) k) P.
Proof.
  intros Ht Hf.
  apply stages_bind with
    (P1 := fun r s => (r = Ok true /\ s = (S (fst s0), snd s0)) \/
                      (r = Ok false /\ s = s0)).
  - intros h. unfold set_pose.
    destruct (set_pose_loop_trace rb position pitch roll n_tries h)
      as [[Hn _] | (failed & success & Hlt & Hs & Hl)]; [discriminate|].
    rewrite Hl. clear Hs Hl.
    destruct success; eexists _, _, _; (split; [reflexivity|]);
      rewrite stage_run_app, stage_run_refused; cbn [stage_run stage_step];
      (split; [reflexivity|]).
    + left. auto.
    + right. auto.
  - intros b s1 [[E ->] | [E ->]]; inversion E; subst b; assumption.
  - intros e s1 [[E _] | [E _]]; discriminate.
Qed.

Lemma stages_grasp (rb : Robot) (grasp_pose : list R) :
  stages (O, false) (grasp rb grasp_pose)
    (fun r s => (fst s <= 4)%nat /\ (r = Ok true <-> fst s = 4%nat)).
Proof.
  assert (Hraise : forall (e : exn) (k : nat), (k < 4)%nat ->
            forall c : bool, (fst (k, c) <= 4)%nat /\
                      ((Raise e : result bool) = Ok true <-> fst (k, c) = 4%nat)).
  { intros e k Hk c. cbn [fst]. split; [lia|]. split; [discriminate | lia]. }
  assert (Hfalse : forall (k : nat), (k < 4)%nat ->
            forall c : bool, (fst (k, c) <= 4)%nat /\
                      ((Ok false : result bool) = Ok true <-> fst (k, c) = 4%nat)).
  { intros k Hk c. cbn [fst]. split; [lia|]. split; [discriminate | lia]. }
  unfold grasp, sleep.
  apply stages_bind_lift; [|intros e; apply Hraise; lia]. intros g0.
  apply stages_bind_lift; [|intros e; apply Hraise; lia]. intros g1.
  apply stages_bind_lift; [|intros e; apply Hraise; lia]. intros grasp_angle.
  apply stages_bind_set_pose; cbn [negb fst snd];
    [|apply stages_ret; apply Hfalse; lia].
  eapply stages_bind_emit; [reflexivity|].
  apply stages_bind with (P1 := fun _ s => s = (1%nat, false)).
  { intros h. destruct (ew_find_pose_error rb h) as (r & t & E & Hf & _).
    exists r, t, (1%nat, false). split; [exact E|]. split; [|reflexivity].
    now apply stage_run_neutral. }
  2:{ intros e s ->. apply Hraise. lia. }
  intros [delta_x delta_y] s ->.
  apply stages_bind_lift; [|intros e; apply Hraise; lia]. intros gp1.
  apply stages_bind_lift; [|intros e; apply Hraise; lia]. intros gp2.
  apply stages_bind_lift; [|intros e; apply Hraise; lia]. intros g0'.
  apply stages_bind_lift; [|intros e; apply Hraise; lia]. intros g1'.
  apply stages_bind_set_pose; cbn [negb fst snd];
    [|apply stages_ret; apply Hfalse; lia].
  eapply stages_bind_emit; [reflexivity|].
  apply stages_bind_set_pose; cbn [negb fst snd];
    [|apply stages_ret; apply Hfalse; lia].
  eapply stages_bind_emit; [reflexivity|].
  eapply stages_bind_emit; [reflexivity|].
  eapply stages_bind_emit; [reflexivity|].
  apply stages_bind_set_pose; cbn [negb fst snd];
    [|apply stages_ret; apply Hfalse; lia].
  eapply stages_bind_emit; [reflexivity|].
  apply stages_ret. cbn [fst]. split; [lia|]. split; reflexivity.
Qed.

(** X14.  In every run of [grasp] at most four pose commands are reached,
    [grasp] returns [True] exactly when four are, and the gripper is closed
    at most once, after exactly three reached poses (first pregrasp, second
    pregrasp, descent) and never before. *)
Theorem grasp_stage_order (rb : Robot) (grasp_pose : list R) (h : history)
    (r : result bool) (t : list event) :
  grasp rb grasp_pose h = (r, h ++ t) ->
  (count_reached t <= 4)%nat /\
  (r = Ok true <-> count_reached t = 4%nat) /\
  (forall pre post, t = pre ++ GripperClose :: post ->
     count_reached pre = 3%nat /\ ~ In GripperClose post).
Proof.
  intros Hg.
  destruct (stages_grasp rb grasp_pose h) as (r' & t' & s & Eg & Es & Hle & Hr).
  rewrite Eg in Hg. inversion Hg as [[Er Et]]. apply app_inv_head in Et. subst r' t'.
  destruct (stage_run_sound _ _ _ Es) as [Hc Hgz]. cbn [fst] in Hc, Hgz.
  rewrite Hc in Hle, Hr. split; [exact Hle|]. split; [exact Hr|].
  intros pre post E. exact (Hgz pre post E).
Qed.

Lemma grasp_stage_order_witness :
  count_reached (snd (grasp rb_blind [1; 0; 0] [])) = 4%nat /\
  fst (grasp rb_blind [1; 0; 0] []) = Ok true.
Proof.
  assert (Hc : count_reached (snd (grasp rb_blind [1; 0; 0] [])) = 4%nat)
    by (run_robot; reflexivity).
  split; [exact Hc|].
  refine (proj2 (proj1 (proj2 (grasp_stage_order rb_blind [1; 0; 0] []
                                 (fst (grasp rb_blind [1; 0; 0] []))
                                 (snd (grasp rb_blind [1; 0; 0] [])) _))) Hc).
  cbn [app]. apply surjective_pairing.
Defined.

End StageOrder.

Section AngleMore.
Local Open Scope R_scope.

Lemma cos_minus_2PI (x : R) : cos (x - 2 * PI) = cos x.
Proof.
  rewrite <- (cos_period (x - 2 * PI) 1). f_equal. simpl INR. ring.
Qed.

Lemma sin_minus_2PI (x : R) : sin (x - 2 * PI) = sin x.
Proof.
  rewrite <- (sin_period (x - 2 * PI) 1). f_equal. simpl INR. ring.
Qed.

Lemma wrap_angle_same_axis (d : R) :
  cos (2 * wrap_angle d) = cos (2 * d) /\ sin (2 * wrap_angle d) = sin (2 * d).
Proof.
  unfold wrap_angle. destruct (Rlt_dec (PI / 2) d).
  - replace (2 * (d - PI)) with (2 * d - 2 * PI) by ring.
    split; [apply cos_minus_2PI | apply sin_minus_2PI].
  - destruct (Rlt_dec d (- PI / 2)); [|split; reflexivity].
    replace (2 * (2 * PI + d)) with (2 * d + 2 * INR 2 * PI) by (simpl INR; ring).
    split; [apply cos_period | apply sin_period].
Qed.

(** X15.  [get_grasp_angle] raises [IndexError] on a pose of fewer than
    three entries and ignores entries after the third.  The angle it returns
    describes the same gripper axis as the sum [angle + arctan2(y, x)]: the
    two differ by a multiple of [pi], so the cosine and the sine of twice
    the angle are unchanged. *)
Theorem grasp_angle_same_axis (grasp_pose : list R) :
  ((length grasp_pose < 3)%nat -> get_grasp_angle grasp_pose = Raise IndexError) /\
  (forall x y angle rest, grasp_pose = x :: y :: angle :: rest ->
     exists v,
       get_grasp_angle grasp_pose = Ok v /\
       cos (2 * v) = cos (2 * (angle + np_arctan2 y x)) /\
       sin (2 * v) = sin (2 * (angle + np_arctan2 y x))).
Proof.
  split.
  - destruct grasp_pose as [|x [|y [|angle rest]]]; cbn [length]; intros H;
      try reflexivity. lia.
  - intros x y angle rest ->. exists (wrap_angle (angle + np_arctan2 y x)).
    split; [reflexivity | apply wrap_angle_same_axis].
Qed.

End AngleMore.

Section Exit.

(** X16.  [exit], and with it the signal handler, always ends in
    [sys.exit(0)], whether or not the arm reached its retract position,
    after at most 13 commands: at most five home-and-retract rounds, then
    the gripper open and the camera pan and tilt. *)
Theorem exit_outcome (rb : Robot) (sig : Z) (h : history) :
  exists t,
    signal_handler rb sig h =
      (SystemExit 0,
       h ++ t ++ [GripperOpen; CameraSetPan reset_pan; CameraSetTilt reset_tilt]) /\
    Forall retract_command t /\ (length t <= 10)%nat.
Proof.
  unfold signal_handler, exit, reset, bind.
  destruct (reset_loop_trace rb n_tries h)
    as [[Hn _] | (failed & success & Hlt & Hs & Hl)]; [discriminate|].
  rewrite Hl. unfold emit, ret.
  exists (concat (repeat (reset_round false) failed) ++ reset_round success).
  split; [now rewrite <- !app_assoc|]. split.
  - apply Forall_app. split.
    + apply Forall_concat. apply Forall_forall. intros l Hin.
      apply repeat_spec in Hin. subst l. repeat constructor.
    + repeat constructor.
  - rewrite length_app, length_concat.
    assert (E : list_sum (map (@length event) (repeat (reset_round false) failed))
                = (2 * failed)%nat).
    { clear. unfold list_sum. induction failed as [|k IH]; [reflexivity|].
      cbn [repeat map fold_right]. rewrite IH. cbn [reset_round length]. lia. }
    rewrite E. cbn [reset_round length]. unfold n_tries in Hlt. lia.
Qed.

End Exit.

(** * Properties of the version module *)

Section Version.
Local Open Scope string_scope.

Lemma str_split_not_nil (sep : Ascii.ascii) (s : string) : str_split sep s <> [].
Proof.
  destruct s as [|c s]; cbn [str_split]; [discriminate|].
  destruct (Ascii.eqb c sep); [discriminate|].
  destruct (str_split sep s); discriminate.
Qed.

Lemma str_split_no_sep (sep : Ascii.ascii) (w : string) :
  has_char sep w = false -> str_split sep w = [w].
Proof.
  induction w as [|c w IH]; [reflexivity|]. cbn [has_char str_split].
  intros H. apply orb_false_iff in H. destruct H as [Hc Hw].
  rewrite Hc, (IH Hw). reflexivity.
Qed.

Lemma str_split_app (sep : Ascii.ascii) (a b : string) :
  str_split sep (String.append a (String sep b))
  = (str_split sep a ++ str_split sep b)%list.
Proof.
  induction a as [|c a IH].
  - cbn [String.append str_split]. now rewrite Ascii.eqb_refl.
  - cbn [String.append str_split]. rewrite IH.
    destruct (Ascii.eqb c sep); [reflexivity|].
    pose proof (str_split_not_nil sep a) as Hn.
    destruct (str_split sep a) as [|w ws]; [contradiction | reflexivity].
Qed.

Lemma str_split_pieces (sep : Ascii.ascii) (s : string) :
  Forall (fun w => has_char sep w = false) (str_split sep s).
Proof.
  induction s as [|c s IH]; cbn [str_split]; [repeat constructor|].
  destruct (Ascii.eqb c sep) eqn:Ec; [constructor; [reflexivity | exact IH]|].
  destruct (str_split sep s) as [|w ws]; [repeat constructor; cbn; now rewrite Ec|].
  inversion IH; subst. constructor; [|assumption].
  cbn [has_char]. rewrite Ec. assumption.
Qed.

Lemma has_char_append (c : Ascii.ascii) (a b : string) :
  has_char c (String.append a b) = has_char c a || has_char c b.
Proof.
  induction a as [|x a IH]; [reflexivity|].
  cbn [String.append has_char]. rewrite IH. apply orb_assoc.
Qed.

Lemma getitem_from_end_last_two {A : Type} (l : list A) (a b : A) :
  getitem_from_end (l ++ [a; b])%list 2 = Some a /\
  getitem_from_end (l ++ [a; b])%list 1 = Some b.
Proof.
  unfold getitem_from_end. rewrite length_app. cbn [length].
  destruct (Nat.leb_spec 2 (length l + 2)); [|lia].
  destruct (Nat.leb_spec 1 (length l + 2)); [|lia].
  split.
  - rewrite nth_error_app2 by lia.
    replace (length l + 2 - 2 - length l)%nat with O by lia. reflexivity.
  - rewrite nth_error_app2 by lia.
    replace (length l + 2 - 1 - length l)%nat with 1%nat by lia. reflexivity.
Qed.

Lemma getitem_from_end_in {A : Type} (l : list A) (k : nat) (a : A) :
  getitem_from_end l k = Some a -> In a l.
Proof.
  unfold getitem_from_end. destruct (k <=? length l)%nat; [|discriminate].
  apply nth_error_In.
Qed.

Lemma joined_not_empty (a b : string) :
  String.eqb (String.append a (String.append "_" b)) EmptyString = false.
Proof.
  destruct a; reflexivity.
Qed.

(** X17.  Built from a checkout whose [git describe --tags] prints
    [<tag>-<n>-<hash>], the module sets the version to [<n>_<hash>] and
    restores the working directory. *)
Theorem version_of_describe (env : VersionEnv) (line tag n g : string)
    (rest : list string) :
  in_conda env = false ->
  git_describe_lines env = line :: rest ->
  str_strip newline line = String.append tag (String dash (String.append n (String dash g))) ->
  has_char dash n = false ->
  has_char dash g = false ->
  polymetis_version env
  = (inr (String.append n (String.append "_" g)), original_cwd env).
Proof.
  intros Hc Hl Hs Hn Hg. unfold polymetis_version, git_version.
  rewrite Hc, Hl, Hs, str_split_app, str_split_app.
  rewrite (str_split_no_sep dash n Hn), (str_split_no_sep dash g Hg).
  cbn [app].
  destruct (getitem_from_end_last_two (str_split dash tag) n g) as [-> ->].
  now rewrite joined_not_empty.
Qed.

Lemma version_of_describe_witness :
  polymetis_version env_checkout = (inr "14_g3f2a9c1", "/home/user").
Proof.
  apply (version_of_describe env_checkout
           (String.append "v0.2-14-g3f2a9c1" (String newline EmptyString))
           "v0.2" "14" "g3f2a9c1" []); reflexivity.
Defined.

(** X18.  Built from a checkout whose [git describe --tags] prints a name
    without a dash, as it does on a commit that carries the tag itself, the
    module raises [IndexError] and leaves the working directory at the
    package directory. *)
Theorem version_of_tagged_commit (env : VersionEnv) (line : string)
    (rest : list string) :
  in_conda env = false ->
  git_describe_lines env = line :: rest ->
  has_char dash (str_strip newline line) = false ->
  polymetis_version env = (inl VersionIndexError, polymetis_dir env).
Proof.
  intros Hc Hl Hd. unfold polymetis_version, git_version.
  rewrite Hc, Hl, (str_split_no_sep dash _ Hd). reflexivity.
Qed.

Lemma version_of_tagged_commit_witness :
  polymetis_version env_tagged
  = (inl VersionIndexError, "/home/user/fairo/polymetis/polymetis/python/polymetis").
Proof.
  apply (version_of_tagged_commit env_tagged
           (String.append "v0.2" (String newline EmptyString)) []); reflexivity.
Defined.

(** X19.  Outside conda the module never raises "Cannot locate Polymetis
    version": it either sets a non-empty version that holds no dash and
    restores the working directory, or raises [IndexError] with the working
    directory left at the package directory. *)
Theorem version_outside_conda (env : VersionEnv) :
  in_conda env = false ->
  (exists v, polymetis_version env = (inr v, original_cwd env) /\
             v <> EmptyString /\ has_char dash v = false) \/
  polymetis_version env = (inl VersionIndexError, polymetis_dir env).
Proof.
  intros Hc. unfold polymetis_version, git_version. rewrite Hc.
  set (items := str_split dash _).
  destruct (getitem_from_end items 2) as [a|] eqn:Ea; [|now right].
  destruct (getitem_from_end items 1) as [b|] eqn:Eb; [|now right].
  left. exists (String.append a (String.append "_" b)).
  rewrite joined_not_empty. split; [reflexivity|]. split.
  - destruct a; discriminate.
  - pose proof (str_split_pieces dash (str_strip newline
        match git_describe_lines env with
        | line :: _ => line
        | [] => default_describe
        end)) as Hp.
    fold items in Hp. rewrite Forall_forall in Hp.
    rewrite has_char_append, (Hp a (getitem_from_end_in _ _ _ Ea)).
    cbn [String.append has_char orb].
    rewrite (Hp b (getitem_from_end_in _ _ _ Eb)). reflexivity.
Qed.

Lemma version_outside_conda_witness :
  (exists v, polymetis_version env_checkout = (inr v, "/home/user") /\
             v <> EmptyString /\ has_char dash v = false) \/
  polymetis_version env_checkout
  = (inl VersionIndexError, "/home/user/fairo/polymetis/polymetis/python/polymetis").
Proof.
  exact (version_outside_conda env_checkout eq_refl).
Defined.

Lemma info_fields_not_empty (line f : string) :
  In f (info_fields line) -> String.eqb f EmptyString = false.
Proof.
  unfold info_fields. intros H. apply filter_In in H.
  destruct H as [_ H]. now apply negb_true_iff in H.
Qed.

Lemma conda_version_skips (skipped lines : list string) :
  Forall (fun l => exists f0 fs, info_fields l = f0 :: fs /\
                                 String.eqb f0 "polymetis" = false) skipped ->
  conda_version (skipped ++ lines)%list = conda_version lines.
Proof.
  induction 1 as [|l skipped (f0 & fs & Hf & Hn) _ IH]; [reflexivity|].
  cbn [app conda_version]. now rewrite Hf, Hn.
Qed.

(** X20.  Inside conda the lines of [conda list] are read in order and the
    first line that is blank or whose first field is [polymetis] decides:
    the version is the second field of that line, a blank line or a line
    with the single field [polymetis] raises [IndexError], and when no such
    line exists the module raises "Cannot locate Polymetis version".  The
    working directory is never changed. *)
Theorem version_inside_conda (env : VersionEnv) (skipped : list string) :
  in_conda env = true ->
  Forall (fun l => exists f0 fs, info_fields l = f0 :: fs /\
                                 String.eqb f0 "polymetis" = false) skipped ->
  (conda_list_lines env = skipped ->
   polymetis_version env = (inl CannotLocate, original_cwd env)) /\
  (forall line rest,
     conda_list_lines env = (skipped ++ line :: rest)%list ->
     info_fields line = [] \/ info_fields line = ["polymetis"] ->
     polymetis_version env = (inl VersionIndexError, original_cwd env)) /\
  (forall line rest v more,
     conda_list_lines env = (skipped ++ line :: rest)%list ->
     info_fields line = "polymetis" :: v :: more ->
     polymetis_version env = (inr v, original_cwd env)).
Proof.
  intros Hc Hs. unfold polymetis_version. rewrite Hc. split; [|split].
  - intros Hl. rewrite Hl, <- (app_nil_r skipped), (conda_version_skips _ _ Hs).
    reflexivity.
  - intros line rest Hl Hf. rewrite Hl, (conda_version_skips _ _ Hs).
    cbn [conda_version]. destruct Hf as [-> | ->]; reflexivity.
  - intros line rest v more Hl Hf. rewrite Hl, (conda_version_skips _ _ Hs).
    cbn [conda_version]. rewrite Hf. cbn.
    rewrite (info_fields_not_empty line v); [reflexivity|].
    rewrite Hf. right. now left.
Qed.

Lemma version_inside_conda_witness :
  polymetis_version env_conda = (inr "0.2", "/home/user").
Proof.
  refine (proj2 (proj2 (version_inside_conda env_conda
            [String.append "polymetis-deps    1.3   h2a4d_0   local"
               (String newline EmptyString)] eq_refl _))
          (String.append "polymetis         0.2   py38_0    local"
             (String newline EmptyString))
          [] "0.2" ["py38_0"; "local"] eq_refl eq_refl).
  constructor; [|constructor].
  exists "polymetis-deps", ["1.3"; "h2a4d_0"; "local"]. split; reflexivity.
Defined.

(** X21.  The fields of a line are the words between its spaces: none is
    empty and none holds a space, however many spaces separate them. *)
Theorem info_fields_words (line : string) :
  Forall (fun f => f <> EmptyString /\ has_char space f = false) (info_fields line).
Proof.
  unfold info_fields. apply Forall_forall. intros f Hin.
  apply filter_In in Hin. destruct Hin as [Hin Hne]. split.
  - intros ->. discriminate.
  - pose proof (str_split_pieces space (str_strip newline line)) as Hp.
    rewrite Forall_forall in Hp. now apply Hp.
Qed.

End Version.

Section Correction.
Local Open Scope R_scope.

Lemma set_pose_first_command (rb : Robot) (position : list R) (pitch roll : R)
    (h : history) :
  exists success b t,
    set_pose rb position pitch roll h =
      (Ok success, h ++ ArmSetEEPosePitchRoll position pitch roll b :: t).
Proof.
  unfold set_pose.
  destruct (set_pose_loop_trace rb position pitch roll n_tries h)
    as [[Hn _] | (failed & success & _ & _ & Hl)]; [discriminate|].
  rewrite Hl. destruct failed as [|k]; cbn [repeat app]; eauto.
Qed.

(** X22.  Once the first pregrasp pose is reached and the calibration step
    has answered the drift [(dx, dy)], the next command of [grasp] is the
    second pregrasp pose at [(g0 + (dx + x_offset), g1 + (dy + y_offset))],
    at the pregrasp height, with the roll computed from the pose as it was
    passed in. *)
Theorem grasp_applies_correction (rb : Robot) (g0 g1 a : R) (rest : list R)
    (h h1 h2 : history) (dx dy angle : R) :
  get_grasp_angle (g0 :: g1 :: a :: rest) = Ok angle ->
  set_pose rb [g0; g1; pregrasp_height] DEFAULT_PITCH 0 h = (Ok true, h1) ->
  _find_pose_error rb (h1 ++ [Sleep _sleep_time]) = (Ok (dx, dy), h2) ->
  exists r b t,
    grasp rb (g0 :: g1 :: a :: rest) h =
      (r, h2 ++ ArmSetEEPosePitchRoll
                  [g0 + (dx + x_offset); g1 + (dy + y_offset); pregrasp_height]
                  DEFAULT_PITCH angle b :: t).
Proof.
  intros Ha Hp Hf. unfold grasp.
  unfold bind at 1. unfold lift at 1. cbn [getitem nth_error].
  unfold bind at 1. unfold lift at 1. cbn [getitem nth_error].
  unfold bind at 1. unfold lift at 1. rewrite Ha.
  unfold bind at 1. rewrite Hp. cbn [negb].
  unfold bind at 1. unfold sleep at 1, emit at 1.
  unfold bind at 1. rewrite Hf.
  unfold bind at 1. unfold lift at 1. cbn [setitem].
  unfold bind at 1. unfold lift at 1. cbn [setitem].
  unfold bind at 1. unfold lift at 1. cbn [getitem nth_error].
  unfold bind at 1. unfold lift at 1. cbn [getitem nth_error].
  set (position := [g0 + (dx + x_offset); g1 + (dy + y_offset); pregrasp_height]).
  match goal with
  | |- context [bind (set_pose rb position DEFAULT_PITCH angle) ?K] => set (k := K)
  end.
  assert (Hk : forall b, emits_within 15 (fun _ => True) (k b)).
  { intros [|]; unfold k, sleep; cbn [negb]; [|apply ew_ret].
    apply ew_bind_emit; [exact I|].
    apply (ew_bind 5 9); [apply ew_set_pose; now intros|].
    intros [|]; cbn [negb]; [|apply ew_ret].
    apply ew_bind_emit; [exact I|].
    apply ew_bind_emit; [exact I|].
    apply ew_bind_emit; [exact I|].
    apply (ew_bind 5 1); [apply ew_set_pose; now intros|].
    intros [|]; cbn [negb]; [|apply ew_ret].
    apply ew_bind_emit; [exact I|].
    apply ew_ret. }
  destruct (set_pose_first_command rb position DEFAULT_PITCH angle h2)
    as (success & b & t1 & Es).
  unfold bind. rewrite Es.
  destruct (Hk success (h2 ++ ArmSetEEPosePitchRoll position DEFAULT_PITCH angle b :: t1))
    as (r & t2 & Ek & _ & _).
  rewrite Ek. exists r, b, (t1 ++ t2)%list.
  rewrite <- app_assoc. reflexivity.
Qed.

Lemma grasp_applies_correction_witness :
  exists r b t,
    grasp rb_blind [1; 0; 0] [] =
      (r, snd (_find_pose_error rb_blind
                 (snd (set_pose rb_blind [1; 0; pregrasp_height] DEFAULT_PITCH 0 [])
                    ++ [Sleep _sleep_time]))
          ++ ArmSetEEPosePitchRoll
               [1 + (0 + x_offset); 0 + (0 + y_offset); pregrasp_height]
               DEFAULT_PITCH (wrap_angle (0 + np_arctan2 0 1)) b :: t).
Proof.
  apply (grasp_applies_correction rb_blind 1 0 0 []
           [] (snd (set_pose rb_blind [1; 0; pregrasp_height] DEFAULT_PITCH 0 []))).
  - reflexivity.
  - run_robot. reflexivity.
  - run_robot. reflexivity.
Defined.

End Correction.
